(** * Falling-sand simulator: a shallow embedding of [src/main.c]

    The simulation core of the program is embedded function by function:
    [addNewPoint], [sandGravity], [drawAllPoints], [drawLine] and the body of
    the [while (!quit)] loop of [main].

    Modelling conventions.
    - A C [int] is a [Z].  Subscripts, flags and pointer positions stay far
      inside the range of [int]; the arithmetic of [drawLine], which can leave
      it for distant endpoints, is also given with its 32-bit wrap-around
      ([drawLine_int]) and its theorems for arbitrary endpoints are stated
      on that.
    - [Point points[ROWS][COLS]] is a list of [ROWS] lines of [COLS] points,
      read and updated by index ([!!] and [alter]).  A subscript outside
      [0, ROWS) x [0, COLS) is undefined in C; the embedding reports it as the
      outcome [OutOfRange row col] instead of guessing what memory holds.
    - A [while] loop whose exit depends on the data takes a fuel argument and
      reports [OutOfFuel] when the fuel is spent before the loop exits.
    - [rand()] is a cursor into an arbitrary sequence of integers; the SDL
      calls are recorded as a list of actions. *)

From Stdlib Require Import ZArith Lia List Bool String.
From stdpp Require Import base tactics option list.

Local Open Scope Z_scope.

(** ** Constants ([#define]s, lines 8-17) *)

Definition WIDTH : Z := 640.
Definition HEIGHT : Z := 480.
Definition SCALING_FACTOR : Z := 10.
Definition COLS : Z := Z.quot WIDTH SCALING_FACTOR.
Definition ROWS : Z := Z.quot HEIGHT SCALING_FACTOR.

(** ** Data model (lines 19-30) *)

(** A [Uint8] holds its value modulo 256. *)
Definition Uint8 (v : Z) : Z := v mod 256.

Record Color : Type := mkColor { r : Z; g : Z; b : Z }.

(** [int exists] cannot be spelled [exists] in Rocq, hence [exists_]. *)
Record Point : Type := mkPoint { exists_ : Z; color : Color }.

Abbreviation Grid := (list (list Point)).

Definition set_exists (v : Z) (p : Point) : Point :=
  {| exists_ := v; color := color p |}.

Definition set_color (c : Color) (p : Point) : Point :=
  {| exists_ := exists_ p; color := c |}.

(** The shape [main] declares: [ROWS] lines of [COLS] points each. *)
Definition well_formed (points : Grid) : Prop :=
  length points = Z.to_nat ROWS ∧
  Forall (λ line : list Point, length line = Z.to_nat COLS) points.

(** ** Outcomes of a run *)

Inductive outcome (A : Type) : Type :=
  | Done (a : A)
  | OutOfRange (row col : Z)
  | OutOfFuel.

Arguments Done {A} a.
Arguments OutOfRange {A} row col.
Arguments OutOfFuel {A}.

Definition bind {A B : Type} (m : outcome A) (k : A → outcome B) : outcome B :=
  match m with
  | Done a => k a
  | OutOfRange row col => OutOfRange row col
  | OutOfFuel => OutOfFuel
  end.

Notation "'do' x <- m ; k" := (bind m (λ x, k))
  (at level 10, x name, m at level 100, k at level 200).
Notation "'do' ' pat <- m ; k" := (bind m (λ x, match x with pat => k end))
  (at level 10, pat pattern, m at level 100, k at level 200).

(** ** Array accesses *)

Definition in_grid (row col : Z) : bool :=
  (0 <=? row) && (row <? ROWS) && (0 <=? col) && (col <? COLS).

(** [points[row][col]] as an rvalue. *)
Definition cell (points : Grid) (row col : Z) : option Point :=
  if in_grid row col
  then points !! Z.to_nat row ≫= (λ line : list Point, line !! Z.to_nat col)
  else None.

Definition load (points : Grid) (row col : Z) : outcome Point :=
  match cell points row col with
  | Some p => Done p
  | None => OutOfRange row col
  end.

(** [points[row][col].field = v] for subscripts already known to be in range. *)
Definition update (f : Point → Point) (row col : Z) (points : Grid) : Grid :=
  alter (alter f (Z.to_nat col)) (Z.to_nat row) points.

(** The same assignment where the source does not check the subscripts. *)
Definition store (f : Point → Point) (row col : Z) (points : Grid)
  : outcome Grid :=
  if in_grid row col then Done (update f row col points)
  else OutOfRange row col.

(** ** [addNewPoint] (lines 49-59)

    Returns the [int] result together with the array after the call. *)
Definition addNewPoint (points : Grid) (col row : Z) (color : Color)
  : Z * Grid :=
  if (col <? 0) || (col >=? COLS) || (row <? 0) || (row >=? ROWS)
  then (-1, points)
  else
    let points := update (set_exists 1) row col points in
    let points :=
      update (set_color {| r := r color; g := g color; b := b color |})
             row col points in
    (0, points).

(** ** [sandGravity] (lines 61-91) *)

(** One evaluation of the body of [while (falling == 1)]: the array after it
    and the new value of [falling].  [col] and [row] are never assigned by the
    source, so they are not part of the result. *)
Definition sandGravity_body (points : Grid) (col row : Z) (color : Color)
  : outcome (Grid * Z) :=
  do p1 <- load points row (col + 1);
  if exists_ p1 =? 0 then
    do points <- store (set_exists (-1)) row col points;
    Done (snd (addNewPoint points (col + 1) row color), 1)
  else
    do p2 <- load points (row + 1) (col - 1);
    if exists_ p2 =? 0 then
      do points <- store (set_exists (-1)) row col points;
      Done (snd (addNewPoint points (col - 1) (row + 1) color), 1)
    else
      do p3 <- load points (row + 1) (col + 1);
      if exists_ p3 =? 0 then
        do points <- store (set_exists (-1)) row col points;
        Done (snd (addNewPoint points (col - 1) (row + 1) color), 1)
      else
        Done (points, 0).

Fixpoint sandGravity_loop (fuel : nat) (points : Grid) (col row : Z)
    (color : Color) (falling : Z) : outcome Grid :=
  if falling =? 1 then
    match fuel with
    | O => OutOfFuel
    | S fuel =>
        match sandGravity_body points col row color with
        | Done (points, falling) =>
            sandGravity_loop fuel points col row color falling
        | OutOfRange row col => OutOfRange row col
        | OutOfFuel => OutOfFuel
        end
    end
  else Done points.

(** The [int] result is always 0 and is left out. *)
Definition sandGravity (fuel : nat) (points : Grid) (col row : Z)
  : outcome Grid :=
  do p <- load points row col;
  sandGravity_loop fuel points col row (color p) 1.

(** ** Grids used as inputs

    [main] (lines 178-185) declares the array and assigns [exists = 0] in every
    cell; the colours stay whatever the stack held, here [junk row col]. *)
Definition init_grid (junk : Z → Z → Color) : Grid :=
  (λ row, (λ col, {| exists_ := 0; color := junk row col |}) <$> seqZ 0 COLS)
    <$> seqZ 0 ROWS.

Definition black : Color := {| r := 0; g := 0; b := 0 |}.
Definition sand : Color := {| r := 210; g := 180; b := 65 |}.

(** A grid with a grain of colour [sand] in each listed cell [(col, row)]. *)
Definition grains (cells : list (Z * Z)) : Grid :=
  fold_left (λ points '(col, row), snd (addNewPoint points col row sand))
            cells (init_grid (λ _ _, black)).

(** Number of cells whose [exists] field satisfies [test]. *)
Definition count_cells (test : Z → bool) (points : Grid) : nat :=
  sum_list ((λ line : list Point,
              length (filter (λ p, test (exists_ p) = true) line)) <$> points).

(** What [drawAllPoints] shows ([exists == 1]) and what the neighbour tests of
    [sandGravity] and [drawLine] take for free ([exists == 0]). *)
Definition shown (v : Z) : bool := v =? 1.
Definition taken (v : Z) : bool := negb (v =? 0).

(** ** Events and recorded SDL calls *)

Inductive event : Type :=
  | SDL_MOUSEBUTTONDOWN
  | SDL_MOUSEBUTTONUP
  | SDL_QUIT
  | SDL_OTHEREVENT.

(** The calls that reach the outside, in the order they are made.  The format
    strings of [printf] are kept without their trailing newline. *)
Inductive action : Type :=
  | SDL_PollEvent (e : event)
  | SDL_GetMouseState (x y : Z)
  | SDL_SetRenderDrawColor (r g b a : Z)
  | SDL_RenderClear
  | SDL_RenderDrawPoint (x y : Z)
  | SDL_RenderPresent
  | SDL_Delay (ms : Z)
  | SDL_Quit
  | printf (format : string) (args : list Z).

(** State of [main] that lives across iterations of [while (!quit)];
    [seed] is the number of [rand()] calls made so far. *)
Record Loop : Type := mkLoop {
  points : Grid;
  quit : Z;
  mouseHeld : bool;
  prevX : Z;
  prevY : Z;
  seed : nat
}.

Section Simulator.

(** The value the n-th call of [rand()] returns. *)
Variable rand_values : nat → Z.

(** The status [SDL_RenderDrawPoint] returns for a cell. *)
Variable draw_status : Z → Z → Z.

Definition rand (seed : nat) : Z * nat := (rand_values seed, S seed).

(** [varyColor] (lines 39-46); C's [%] is [Z.rem]. *)
Definition varyColor (seed : nat) : Color * nat :=
  let '(v, seed) := rand seed in
  let r := Uint8 (200 + Z.rem v 20) in
  let '(v, seed) := rand seed in
  let g := Uint8 (170 + Z.rem v 20) in
  let '(v, seed) := rand seed in
  let b := Uint8 (60 + Z.rem v 10) in
  ({| r := r; g := g; b := b |}, seed).

(** [error_checking] (lines 33-37); the text of [SDL_GetError()] is SDL's. *)
Definition error_checking (format : string) : list action :=
  [printf format []; SDL_Quit].

(** ** [drawAllPoints] (lines 94-117) *)

Fixpoint for_each {A : Type} (body : A → outcome (list action)) (l : list A)
  : outcome (list action) :=
  match l with
  | [] => Done []
  | a :: l =>
      do out1 <- body a;
      do out2 <- for_each body l;
      Done (out1 ++ out2)
  end.

Definition drawPoint (points : Grid) (row col : Z) : outcome (list action) :=
  do p <- load points row col;
  if exists_ p =? 1 then
    Done ([SDL_SetRenderDrawColor (r (color p)) (g (color p)) (b (color p)) 255;
           SDL_RenderDrawPoint col row]
          ++ (if draw_status col row =? 0 then []
              else error_checking
                     "Encountered error while drawing point on renderer: %s"))
  else Done [].

Definition drawAllPoints (points : Grid) : outcome (list action) :=
  do out <- for_each (λ row, for_each (drawPoint points row) (seqZ 0 COLS))
                     (seqZ 0 ROWS);
  Done ([SDL_SetRenderDrawColor 0 0 0 255; SDL_RenderClear] ++ out
        ++ [SDL_RenderPresent]).

(** ** [drawLine] (lines 120-151) *)

(** Lines 130-135: the cell at the current position. *)
Definition drawLine_plot (points : Grid) (seed : nat) (x y : Z)
  : outcome (Grid * nat) :=
  if (x >=? 0) && (x <? COLS) && (y >=? 0) && (y <? ROWS) then
    do p <- load points y x;
    if exists_ p =? 0 then
      let '(color, seed) := varyColor seed in
      Done (snd (addNewPoint points x y color), seed)
    else Done (points, seed)
  else Done (points, seed).

(** Lines 139-147: the next position and error term, in exact arithmetic. *)
Definition drawLine_advance (dx dy sx sy : Z) (x y err : Z) : Z * Z * Z :=
  let e2 := 2 * err in
  let '(err, x) := if e2 >? - dy then (err - dy, x + sx) else (err, x) in
  let '(err, y) := if e2 <? dx then (err + dx, y + sy) else (err, y) in
  (x, y, err).

Fixpoint drawLine_loop (fuel : nat) (points : Grid) (seed : nat)
    (dx dy sx sy x2 y2 : Z) (x y err : Z) : outcome (Grid * nat) :=
  match fuel with
  | O => OutOfFuel
  | S fuel =>
      match drawLine_plot points seed x y with
      | Done (points, seed) =>
          if (x =? x2) && (y =? y2) then Done (points, seed)
          else
            let '(x, y, err) := drawLine_advance dx dy sx sy x y err in
            drawLine_loop fuel points seed dx dy sx sy x2 y2 x y err
      | OutOfRange row col => OutOfRange row col
      | OutOfFuel => OutOfFuel
      end
  end.

(** The [renderer] argument is unused by the source and left out; the result
    is the array and the [rand()] cursor after the call.  The arithmetic is
    exact; [drawLine_int] below wraps. *)
Definition drawLine (fuel : nat) (points : Grid) (seed : nat)
    (x1 y1 x2 y2 : Z) : outcome (Grid * nat) :=
  let dx := Z.abs (x2 - x1) in
  let dy := Z.abs (y2 - y1) in
  let sx := if x1 <? x2 then 1 else -1 in
  let sy := if y1 <? y2 then 1 else -1 in
  let err := dx - dy in
  drawLine_loop fuel points seed dx dy sx sy x2 y2 x1 y1 err.

(** The cells the loop of [drawLine] visits, in order, as [(x, y)], in exact
    arithmetic. *)
Fixpoint line_cells (fuel : nat) (dx dy sx sy x2 y2 : Z) (x y err : Z)
  : list (Z * Z) :=
  match fuel with
  | O => []
  | S fuel =>
      (x, y) ::
      if (x =? x2) && (y =? y2) then []
      else
        let '(x, y, err) := drawLine_advance dx dy sx sy x y err in
        line_cells fuel dx dy sx sy x2 y2 x y err
  end.

Definition bresenham (x1 y1 x2 y2 : Z) : list (Z * Z) :=
  let dx := Z.abs (x2 - x1) in
  let dy := Z.abs (y2 - y1) in
  let sx := if x1 <? x2 then 1 else -1 in
  let sy := if y1 <? y2 then 1 else -1 in
  line_cells (S (Z.to_nat (dx + dy))) dx dy sx sy x2 y2 x1 y1 (dx - dy).

(** ** The body of [while (!quit)] in [main] (lines 193-232) *)

(** Lines 195-205: one event taken from the queue. *)
Definition handle_event (st : Loop) (e : event) : Loop :=
  match e with
  | SDL_MOUSEBUTTONDOWN =>
      {| points := points st; quit := quit st; mouseHeld := true;
         prevX := prevX st; prevY := prevY st; seed := seed st |}
  | SDL_MOUSEBUTTONUP =>
      {| points := points st; quit := quit st; mouseHeld := false;
         prevX := -1; prevY := -1; seed := seed st |}
  | SDL_QUIT =>
      {| points := points st; quit := 1; mouseHeld := mouseHeld st;
         prevX := prevX st; prevY := prevY st; seed := seed st |}
  | SDL_OTHEREVENT => st
  end.

(** Lines 208-226: painting while the button is held.  [mouse] is the pointer
    position in pixels that [SDL_GetMouseState] reports. *)
Definition paint (fuel : nat) (mouse : Z * Z) (st : Loop)
  : outcome (Loop * list action) :=
  if mouseHeld st then
    let mouseX := Z.quot (fst mouse) SCALING_FACTOR in
    let mouseY := Z.quot (snd mouse) SCALING_FACTOR in
    do '(points, seed, out) <-
      (if (prevX st >=? 0) && (prevY st >=? 0) then
         do '(points, seed) <-
           drawLine fuel (points st) (seed st) (prevX st) (prevY st)
                    mouseX mouseY;
         Done (points, seed, [])
       else
         let '(color, seed) := varyColor (seed st) in
         let '(result, points) := addNewPoint (points st) mouseX mouseY color in
         Done (points, seed,
               if negb (result =? 0)
               then [printf "Mouse coordinates out of bounds: (%d, %d)"
                            [mouseX; mouseY]]
               else []));
    Done ({| points := points; quit := quit st; mouseHeld := mouseHeld st;
             prevX := mouseX; prevY := mouseY; seed := seed |},
          SDL_GetMouseState (fst mouse) (snd mouse) :: out)
  else Done (st, []).

(** One iteration: drain the events, paint, draw, wait. *)
Definition frame (fuel : nat) (events : list event) (mouse : Z * Z)
    (st : Loop) : outcome (Loop * list action) :=
  let st := fold_left handle_event events st in
  do '(st, painted) <- paint fuel mouse st;
  do drawn <- drawAllPoints (points st);
  Done (st, (SDL_PollEvent <$> events) ++ painted ++ drawn ++ [SDL_Delay 16]).

(** The cells with [exists == 1], as [(col, row)], in the row-major order in
    which [drawAllPoints] scans the array. *)

Definition occupied_cells (points : Grid) : list (Z * Z) :=
  row ← seqZ 0 ROWS;
  col ← seqZ 0 COLS;
  match cell points row col with
  | Some p => if exists_ p =? 1 then [(col, row)] else []
  | None => []
  end.

End Simulator.

(** ** [int] arithmetic of [drawLine]

    [drawLine] is the one function of the source whose arithmetic can leave
    the range of [int]: it doubles an error term as large as the distance
    between its endpoints.  Signed overflow is undefined in C; on the usual
    two's-complement targets the result wraps, and that is what the
    definitions of this section compute.  [drawLine] above is the same
    function in exact arithmetic; [drawLine_int_exact] shows that the two
    agree for endpoints within [reach], which covers every cell [main] can
    pass ([pointer_cells_within_reach]). *)

(** The value a 32-bit two's-complement [int] holds after a computation whose
    exact result is [v]. *)
Definition wrap_int (v : Z) : Z := (v + 2 ^ 31) mod 2 ^ 32 - 2 ^ 31.

(** Size of the endpoint coordinates up to which no computation of
    [drawLine] leaves the range of [int].  *)
Definition reach : Z := 2 ^ 28.

Section IntArithmetic.

Variable rand_values : nat → Z.

(** Lines 139-147 in [int] arithmetic. *)
Definition drawLine_advance_int (dx dy sx sy : Z) (x y err : Z) : Z * Z * Z :=
  let e2 := wrap_int (2 * err) in
  let '(err, x) :=
    if e2 >? wrap_int (- dy) then (wrap_int (err - dy), wrap_int (x + sx))
    else (err, x) in
  let '(err, y) :=
    if e2 <? dx then (wrap_int (err + dx), wrap_int (y + sy))
    else (err, y) in
  (x, y, err).

Fixpoint drawLine_loop_int (fuel : nat) (points : Grid) (seed : nat)
    (dx dy sx sy x2 y2 : Z) (x y err : Z) : outcome (Grid * nat) :=
  match fuel with
  | O => OutOfFuel
  | S fuel =>
      match drawLine_plot rand_values points seed x y with
      | Done (points, seed) =>
          if (x =? x2) && (y =? y2) then Done (points, seed)
          else
            let '(x, y, err) := drawLine_advance_int dx dy sx sy x y err in
            drawLine_loop_int fuel points seed dx dy sx sy x2 y2 x y err
      | OutOfRange row col => OutOfRange row col
      | OutOfFuel => OutOfFuel
      end
  end.

(** [drawLine] (lines 120-151) in [int] arithmetic. *)
Definition drawLine_int (fuel : nat) (points : Grid) (seed : nat)
    (x1 y1 x2 y2 : Z) : outcome (Grid * nat) :=
  let dx := wrap_int (Z.abs (wrap_int (x2 - x1))) in
  let dy := wrap_int (Z.abs (wrap_int (y2 - y1))) in
  let sx := if x1 <? x2 then 1 else -1 in
  let sy := if y1 <? y2 then 1 else -1 in
  let err := wrap_int (dx - dy) in
  drawLine_loop_int fuel points seed dx dy sx sy x2 y2 x1 y1 err.

End IntArithmetic.

(** The cells the loop of [drawLine_int] visits, in order, as [(x, y)]. *)
Fixpoint line_cells_int (fuel : nat) (dx dy sx sy x2 y2 : Z) (x y err : Z)
  : list (Z * Z) :=
  match fuel with
  | O => []
  | S fuel =>
      (x, y) ::
      if (x =? x2) && (y =? y2) then []
      else
        let '(x, y, err) := drawLine_advance_int dx dy sx sy x y err in
        line_cells_int fuel dx dy sx sy x2 y2 x y err
  end.

Definition bresenham_int (x1 y1 x2 y2 : Z) : list (Z * Z) :=
  let dx := wrap_int (Z.abs (wrap_int (x2 - x1))) in
  let dy := wrap_int (Z.abs (wrap_int (y2 - y1))) in
  let sx := if x1 <? x2 then 1 else -1 in
  let sy := if y1 <? y2 then 1 else -1 in
  line_cells_int (S (Z.to_nat (dx + dy))) dx dy sx sy x2 y2 x1 y1
                 (wrap_int (dx - dy)).

(** Both endpoints within [reach] of the origin. *)
Definition within_reach (x1 y1 x2 y2 : Z) : Prop :=
  Z.abs x1 ≤ reach ∧ Z.abs y1 ≤ reach ∧ Z.abs x2 ≤ reach ∧ Z.abs y2 ≤ reach.

(** ** Vocabulary of the statements *)

(** [after] differs from [before] only in cells of [cells] that were free
    ([exists == 0]) and now hold a grain. *)
Definition paints_only (cells : list (Z * Z)) (before after : Grid) : Prop :=
  ∀ row col p,
    cell before row col = Some p →
    cell after row col = Some p ∨
    (exists_ p = 0 ∧ (col, row) ∈ cells ∧
     ∃ c, cell after row col = Some {| exists_ := 1; color := c |}).

(** Loop invariant of [drawLine]: after [i] steps along x and [j] steps along
    y the position and the error term are determined by the endpoints. *)
Definition on_track (x1 y1 x2 y2 : Z) (x y err : Z) (i j : Z) : Prop :=
  let dx := Z.abs (x2 - x1) in
  let dy := Z.abs (y2 - y1) in
  let sx := if x1 <? x2 then 1 else -1 in
  let sy := if y1 <? y2 then 1 else -1 in
  (0 ≤ i ≤ dx) ∧ (0 ≤ j ≤ dy) ∧ x = x1 + sx * i ∧ y = y1 + sy * j ∧
  err = dx - dy - i * dy + j * dx.

(** The [exists] fields alone, line by line. *)
Definition occupancy (points : Grid) : list (list Z) :=
  (λ line : list Point, exists_ <$> line) <$> points.

(** The cells for which a list of recorded calls asks [SDL_RenderDrawPoint]. *)
Definition draw_calls (out : list action) : list (Z * Z) :=
  omap (λ a, match a with
             | SDL_RenderDrawPoint x y => Some (x, y)
             | _ => None
             end) out.

(** The loop state of [main] with the button up, as at line 187-191. *)
Definition idle (points : Grid) : Loop :=
  {| points := points; quit := 0; mouseHeld := false;
     prevX := -1; prevY := -1; seed := 0 |}.

(** ** Vocabulary of the further properties *)

(** Two cells that touch by a side or a corner. *)
Definition adjacent (a b : Z * Z) : Prop :=
  a ≠ b ∧ Z.abs (fst b - fst a) ≤ 1 ∧ Z.abs (snd b - snd a) ≤ 1.

(** Bounds on the error term of [drawLine] that make every iteration step
    along the longer side of the rectangle. *)
Definition steady (dx dy err : Z) : Prop :=
  (dy ≤ dx → - dy < 2 * err < 3 * dx - 2 * dy) ∧
  (dx ≤ dy → 2 * dx - 3 * dy < 2 * err < dx).

(** The array after a move of [sandGravity] from [(col, row)] to
    [(tcol, trow)]: the source marked, the grain placed. *)
Definition moved (points : Grid) (col row tcol trow : Z) (c : Color) : Grid :=
  snd (addNewPoint (update (set_exists (-1)) row col points) tcol trow c).

(** [after] has the cells of [before]; none that was not free has become
    free, and only the source [(col, row)] and the two targets of
    [sandGravity] may differ. *)
Definition settles_into (col row : Z) (before after : Grid) : Prop :=
  ∀ row' col' p,
    cell before row' col' = Some p →
    ∃ p', cell after row' col' = Some p' ∧
      (exists_ p ≠ 0 → exists_ p' ≠ 0) ∧
      ((row' ≠ row ∨ col' ≠ col) → (row' ≠ row ∨ col' ≠ col + 1) →
       (row' ≠ row + 1 ∨ col' ≠ col - 1) → p' = p).

(** The calls [drawAllPoints] makes for one shown cell. *)
Definition draw_cell (draw_status : Z → Z → Z) (points : Grid)
    (at_ : Z * Z) : list action :=
  let '(col, row) := at_ in
  match cell points row col with
  | Some p =>
      [SDL_SetRenderDrawColor (r (color p)) (g (color p)) (b (color p)) 255;
       SDL_RenderDrawPoint col row]
      ++ (if draw_status col row =? 0 then []
          else error_checking
                 "Encountered error while drawing point on renderer: %s")
  | None => []
  end.

(** Every cell of [before] holds in [after] what it held or a grain. *)
Definition grows (before after : Grid) : Prop :=
  ∀ row col p,
    cell before row col = Some p →
    cell after row col = Some p ∨
    ∃ c, cell after row col = Some {| exists_ := 1; color := c |}.

Section Run.

Variable rand_values : nat → Z.
Variable draw_status : Z → Z → Z.

(** [while (!quit)] run on the input of its first iterations: the events
    pending and the pointer position at each.  The result is the state and
    the calls made when the input ends or [quit] is set. *)
Fixpoint main_loop (fuel : nat) (inputs : list (list event * (Z * Z)))
    (st : Loop) : outcome (Loop * list action) :=
  match inputs with
  | [] => Done (st, [])
  | (events, mouse) :: inputs =>
      if quit st =? 0 then
        match frame rand_values draw_status fuel events mouse st with
        | Done (st, out1) =>
            match main_loop fuel inputs st with
            | Done (st, out2) => Done (st, out1 ++ out2)
            | OutOfRange row col => OutOfRange row col
            | OutOfFuel => OutOfFuel
            end
        | OutOfRange row col => OutOfRange row col
        | OutOfFuel => OutOfFuel
        end
      else Done (st, [])
  end.

End Run.


(** * Properties *)

(** ** Array accesses *)

Lemma in_grid_true row col :
  in_grid row col = true ↔ (0 ≤ row < ROWS) ∧ (0 ≤ col < COLS).
Proof. unfold in_grid. rewrite !andb_true_iff. lia. Qed.

Lemma in_grid_false row col :
  in_grid row col = false ↔ row < 0 ∨ ROWS ≤ row ∨ col < 0 ∨ COLS ≤ col.
Proof.
  rewrite <- not_true_iff_false, in_grid_true. lia.
Qed.

Lemma cell_in_grid points row col p :
  cell points row col = Some p → in_grid row col = true.
Proof. unfold cell. by destruct (in_grid row col). Qed.

Lemma well_formed_cell points row col :
  well_formed points → in_grid row col = true → is_Some (cell points row col).
Proof.
  intros [Hrows Hcols] Hin. unfold cell. rewrite Hin.
  apply in_grid_true in Hin.
  destruct (lookup_lt_is_Some_2 points (Z.to_nat row)) as [line Hline];
    [lia|].
  rewrite Hline. simpl. apply lookup_lt_is_Some_2.
  rewrite Forall_forall in Hcols.
  rewrite (Hcols line) by (eapply list_elem_of_lookup_2; eauto). lia.
Qed.

Lemma cell_update_eq f row col points :
  cell (update f row col points) row col = f <$> cell points row col.
Proof.
  unfold cell, update. destruct (in_grid row col); [|done].
  rewrite list_lookup_alter_eq.
  destruct (points !! Z.to_nat row); simpl; [|done].
  by rewrite list_lookup_alter_eq.
Qed.

Lemma cell_update_ne f row col row' col' points :
  in_grid row col = true → row' ≠ row ∨ col' ≠ col →
  cell (update f row col points) row' col' = cell points row' col'.
Proof.
  intros Hin Hne. unfold cell, update.
  destruct (in_grid row' col') eqn:Hin'; [|done].
  apply in_grid_true in Hin, Hin'.
  destruct (decide (Z.to_nat row = Z.to_nat row')) as [Heq|Hrow].
  - rewrite <- Heq, list_lookup_alter_eq.
    destruct (points !! Z.to_nat row); simpl; [|done].
    apply list_lookup_alter_ne. lia.
  - by rewrite list_lookup_alter_ne.
Qed.

Lemma well_formed_update f row col points :
  well_formed points → well_formed (update f row col points).
Proof.
  intros [Hrows Hcols]. split.
  - unfold update. by rewrite length_alter.
  - unfold update. rewrite Forall_forall in *. intros line Hline.
    apply list_elem_of_lookup in Hline as [i Hi].
    destruct (decide (Z.to_nat row = i)) as [<-|Hne].
    + rewrite list_lookup_alter_eq in Hi.
      destruct (points !! Z.to_nat row) as [line0|] eqn:Hl; [|done].
      simpl in Hi. injection Hi as <-. rewrite length_alter.
      apply Hcols. eapply list_elem_of_lookup_2; eauto.
    + rewrite list_lookup_alter_ne in Hi by done.
      apply Hcols. eapply list_elem_of_lookup_2; eauto.
Qed.

Lemma load_Done points row col p :
  load points row col = Done p ↔ cell points row col = Some p.
Proof.
  unfold load. destruct (cell points row col); split; congruence.
Qed.

Lemma well_formed_init_grid junk : well_formed (init_grid junk).
Proof.
  split.
  - unfold init_grid. by rewrite length_fmap, length_seqZ.
  - unfold init_grid. rewrite Forall_fmap. apply Forall_forall.
    intros row _. unfold compose. by rewrite length_fmap, length_seqZ.
Qed.

Lemma lookup_fmap_seqZ {A : Type} (f : Z → A) (n i : Z) :
  0 ≤ i < n → (f <$> seqZ 0 n) !! Z.to_nat i = Some (f i).
Proof.
  intros Hi. rewrite list_lookup_fmap, lookup_seqZ_lt by lia. simpl.
  do 2 f_equal. lia.
Qed.

Lemma cell_init_grid junk row col :
  in_grid row col = true →
  cell (init_grid junk) row col =
    Some {| exists_ := 0; color := junk row col |}.
Proof.
  intros Hin. unfold cell. rewrite Hin. apply in_grid_true in Hin.
  unfold init_grid. rewrite lookup_fmap_seqZ by lia.
  cbn [mbind option_bind]. by rewrite lookup_fmap_seqZ by lia.
Qed.

(** ** [addNewPoint] *)

Lemma addNewPoint_out points col row c :
  in_grid row col = false → addNewPoint points col row c = (-1, points).
Proof.
  intros Hout. apply in_grid_false in Hout. unfold addNewPoint.
  destruct ((col <? 0) || (col >=? COLS) || (row <? 0) || (row >=? ROWS))
    eqn:Hguard; [done|].
  rewrite !orb_false_iff in Hguard. lia.
Qed.

Lemma addNewPoint_in points col row c :
  in_grid row col = true →
  addNewPoint points col row c =
    (0, update (set_color c) row col (update (set_exists 1) row col points)).
Proof.
  intros Hin. apply in_grid_true in Hin. unfold addNewPoint.
  destruct ((col <? 0) || (col >=? COLS) || (row <? 0) || (row >=? ROWS))
    eqn:Hguard.
  - rewrite !orb_true_iff in Hguard. lia.
  - by destruct c.
Qed.

Lemma well_formed_addNewPoint points col row c :
  well_formed points → well_formed (snd (addNewPoint points col row c)).
Proof.
  intros Hwf. destruct (in_grid row col) eqn:Hin.
  - rewrite addNewPoint_in by done. simpl. by do 2 apply well_formed_update.
  - by rewrite addNewPoint_out.
Qed.

Lemma cell_addNewPoint_eq points col row c p :
  cell points row col = Some p →
  cell (snd (addNewPoint points col row c)) row col =
    Some {| exists_ := 1; color := c |}.
Proof.
  intros Hp. rewrite addNewPoint_in by (by eapply cell_in_grid). simpl.
  by rewrite !cell_update_eq, Hp.
Qed.

Lemma cell_addNewPoint_ne points col row c row' col' :
  row' ≠ row ∨ col' ≠ col →
  cell (snd (addNewPoint points col row c)) row' col' = cell points row' col'.
Proof.
  intros Hne. destruct (in_grid row col) eqn:Hin.
  - rewrite addNewPoint_in by done. simpl. by rewrite !cell_update_ne.
  - by rewrite addNewPoint_out.
Qed.

Lemma COLS_eq : COLS = 64.
Proof. reflexivity. Qed.

Lemma ROWS_eq : ROWS = 48.
Proof. reflexivity. Qed.

Ltac grid_lia := rewrite ?COLS_eq, ?ROWS_eq in *; lia.

(** C8.  Outside the bounds [addNewPoint] returns -1, the source's
    out-of-bounds result, and the array is the one it was given; inside the
    bounds it returns 0 and the cell holds [exists = 1] and the given colour
    whatever it held before, every other cell being left as it was. *)
Theorem addNewPoint_bounds (points : Grid) (col row : Z) (c : Color) :
  (col < 0 ∨ col >= COLS ∨ row < 0 ∨ row >= ROWS →
   addNewPoint points col row c = (-1, points)) ∧
  (well_formed points → 0 ≤ col < COLS → 0 ≤ row < ROWS →
   fst (addNewPoint points col row c) = 0 ∧
   cell (snd (addNewPoint points col row c)) row col =
     Some {| exists_ := 1; color := c |} ∧
   (∀ row' col', row' ≠ row ∨ col' ≠ col →
      cell (snd (addNewPoint points col row c)) row' col' =
        cell points row' col') ∧
   well_formed (snd (addNewPoint points col row c))).
Proof.
  split.
  - intros Hout. apply addNewPoint_out, in_grid_false. lia.
  - intros Hwf Hcol Hrow.
    assert (Hin : in_grid row col = true) by (apply in_grid_true; lia).
    destruct (well_formed_cell points row col Hwf Hin) as [p Hp].
    split; [by rewrite addNewPoint_in|].
    split; [by eapply cell_addNewPoint_eq|].
    split; [intros; by apply cell_addNewPoint_ne|].
    by apply well_formed_addNewPoint.
Qed.

Lemma addNewPoint_bounds_witness :
  addNewPoint (grains [(3, 2)]) 64 0 black = (-1, grains [(3, 2)]) ∧
  cell (snd (addNewPoint (grains [(3, 2)]) 3 2 black)) 2 3 =
    Some {| exists_ := 1; color := black |}.
Proof.
  split.
  - apply (addNewPoint_bounds (grains [(3, 2)]) 64 0 black). grid_lia.
  - apply (addNewPoint_bounds (grains [(3, 2)]) 3 2 black).
    + apply well_formed_addNewPoint, well_formed_init_grid.
    + grid_lia.
    + grid_lia.
Defined.

(** ** [drawLine] *)

Lemma on_track_start x1 y1 x2 y2 :
  on_track x1 y1 x2 y2 x1 y1 (Z.abs (x2 - x1) - Z.abs (y2 - y1)) 0 0.
Proof. unfold on_track. repeat case_match; lia. Qed.

Lemma on_track_end x1 y1 x2 y2 x y err i j :
  on_track x1 y1 x2 y2 x y err i j →
  (x = x2 ∧ y = y2) ↔ (i = Z.abs (x2 - x1) ∧ j = Z.abs (y2 - y1)).
Proof.
  unfold on_track. intros (Hi & Hj & -> & -> & _).
  destruct (x1 <? x2) eqn:Hx, (y1 <? y2) eqn:Hy; lia.
Qed.

Lemma on_track_advance x1 y1 x2 y2 x y err i j :
  on_track x1 y1 x2 y2 x y err i j →
  ¬ (x = x2 ∧ y = y2) →
  ∃ i' j',
    (let '(x', y', err') :=
       drawLine_advance (Z.abs (x2 - x1)) (Z.abs (y2 - y1))
         (if x1 <? x2 then 1 else -1) (if y1 <? y2 then 1 else -1) x y err in
     on_track x1 y1 x2 y2 x' y' err' i' j') ∧
    i ≤ i' ∧ j ≤ j' ∧ i + j < i' + j'.
Proof.
  intros Ht Hne. rewrite (on_track_end _ _ _ _ _ _ _ _ _ Ht) in Hne.
  unfold on_track in *. destruct Ht as (Hi & Hj & Hx & Hy & Herr).
  set (dx := Z.abs (x2 - x1)) in *. set (dy := Z.abs (y2 - y1)) in *.
  set (sx := if x1 <? x2 then 1 else -1) in *.
  set (sy := if y1 <? y2 then 1 else -1) in *.
  unfold drawLine_advance.
  destruct (2 * err >? - dy) eqn:Hgo_x, (2 * err <? dx) eqn:Hgo_y.
  - exists (i + 1), (j + 1).
    assert (i < dx) by nia. assert (j < dy) by nia. repeat split; lia.
  - exists (i + 1), j.
    assert (i < dx) by nia. repeat split; lia.
  - exists i, (j + 1).
    assert (j < dy) by nia. repeat split; lia.
  - exfalso. apply Hne. lia.
Qed.

Lemma paints_only_refl cells points : paints_only cells points points.
Proof. intros row col p Hp. by left. Qed.

Lemma paints_only_trans cells1 cells2 points1 points2 points3 :
  paints_only cells1 points1 points2 →
  paints_only cells2 points2 points3 →
  paints_only (cells1 ++ cells2) points1 points3.
Proof.
  intros H12 H23 row col p Hp.
  destruct (H12 row col p Hp) as [Hsame|(Hfree & Hcell & c & Hc)].
  - destruct (H23 row col p Hsame) as [?|(? & ? & ?)]; [by left|right].
    rewrite elem_of_app. eauto.
  - right. split; [done|]. split; [rewrite elem_of_app; eauto|].
    destruct (H23 row col _ Hc) as [?|(Hfree' & _)]; [eauto|done].
Qed.

Example bresenham_row :
  bresenham 0 0 5 0 = [(0, 0); (1, 0); (2, 0); (3, 0); (4, 0); (5, 0)].
Proof. reflexivity. Qed.

Example bresenham_slope :
  bresenham 3 2 1 7 = [(3, 2); (3, 3); (2, 4); (2, 5); (1, 6); (1, 7)].
Proof. reflexivity. Qed.

(** The walk starts at the first endpoint, ends at the second and stays
    inside the rectangle spanned by the two. *)
Lemma bresenham_first x1 y1 x2 y2 :
  head (bresenham x1 y1 x2 y2) = Some (x1, y1).
Proof. reflexivity. Qed.

Lemma line_cells_last x1 y1 x2 y2 fuel :
  ∀ x y err i j,
    on_track x1 y1 x2 y2 x y err i j →
    Z.abs (x2 - x1) - i + (Z.abs (y2 - y1) - j) < Z.of_nat fuel →
    last (line_cells fuel (Z.abs (x2 - x1)) (Z.abs (y2 - y1))
            (if x1 <? x2 then 1 else -1) (if y1 <? y2 then 1 else -1)
            x2 y2 x y err) = Some (x2, y2).
Proof.
  induction fuel as [|fuel IH]; intros x y err i j Ht Hfuel.
  - unfold on_track in Ht. lia.
  - cbn [line_cells].
    destruct ((x =? x2) && (y =? y2)) eqn:Hend.
    + apply andb_true_iff in Hend as [Hx Hy].
      apply Z.eqb_eq in Hx, Hy. by subst.
    + assert (Hne : ¬ (x = x2 ∧ y = y2)).
      { rewrite andb_false_iff in Hend. lia. }
      destruct (on_track_advance _ _ _ _ _ _ _ _ _ Ht Hne)
        as (i' & j' & Ht' & Hi & Hj & Hij).
      destruct (drawLine_advance _ _ _ _ x y err) as [[x' y'] err'].
      specialize (IH x' y' err' i' j' Ht' ltac:(lia)).
      destruct (line_cells fuel _ _ _ _ x2 y2 x' y' err') as [|c cells];
        [done|by rewrite last_cons_cons].
Qed.

Lemma bresenham_last x1 y1 x2 y2 :
  last (bresenham x1 y1 x2 y2) = Some (x2, y2).
Proof.
  unfold bresenham. apply line_cells_last with (i := 0) (j := 0).
  - apply on_track_start.
  - lia.
Qed.

Lemma line_cells_between x1 y1 x2 y2 fuel :
  ∀ x y err i j cx cy,
    on_track x1 y1 x2 y2 x y err i j →
    (cx, cy) ∈ line_cells fuel (Z.abs (x2 - x1)) (Z.abs (y2 - y1))
      (if x1 <? x2 then 1 else -1) (if y1 <? y2 then 1 else -1)
      x2 y2 x y err →
    (x1 `min` x2 ≤ cx ≤ x1 `max` x2) ∧ (y1 `min` y2 ≤ cy ≤ y1 `max` y2).
Proof.
  induction fuel as [|fuel IH]; intros x y err i j cx cy Ht Hc;
    cbn [line_cells] in Hc; [by apply elem_of_nil in Hc|].
  apply elem_of_cons in Hc as [Heq|Hc].
  - injection Heq as -> ->. unfold on_track in Ht.
    destruct Ht as (Hi & Hj & -> & -> & _).
    destruct (x1 <? x2) eqn:Hx, (y1 <? y2) eqn:Hy; lia.
  - destruct ((x =? x2) && (y =? y2)) eqn:Hend;
      [by apply elem_of_nil in Hc|].
    assert (Hne : ¬ (x = x2 ∧ y = y2)).
    { rewrite andb_false_iff in Hend. lia. }
    destruct (on_track_advance _ _ _ _ _ _ _ _ _ Ht Hne)
      as (i' & j' & Ht' & _).
    destruct (drawLine_advance _ _ _ _ x y err) as [[x' y'] err'].
    by apply (IH x' y' err' i' j').
Qed.

Lemma bresenham_between x1 y1 x2 y2 cx cy :
  (cx, cy) ∈ bresenham x1 y1 x2 y2 →
  (x1 `min` x2 ≤ cx ≤ x1 `max` x2) ∧ (y1 `min` y2 ≤ cy ≤ y1 `max` y2).
Proof.
  unfold bresenham. apply line_cells_between with (i := 0) (j := 0).
  apply on_track_start.
Qed.

Section DrawLine.

Variable rand_values : nat → Z.

Lemma drawLine_plot_paints points seed x y :
  well_formed points →
  ∃ points' seed',
    drawLine_plot rand_values points seed x y = Done (points', seed') ∧
    well_formed points' ∧ paints_only [(x, y)] points points'.
Proof.
  intros Hwf. unfold drawLine_plot.
  destruct ((x >=? 0) && (x <? COLS) && (y >=? 0) && (y <? ROWS)) eqn:Hin.
  - assert (Hgrid : in_grid y x = true).
    { rewrite !andb_true_iff in Hin. apply in_grid_true. lia. }
    destruct (well_formed_cell points y x Hwf Hgrid) as [p Hp].
    unfold load. rewrite Hp. cbn [bind].
    destruct (exists_ p =? 0) eqn:Hfree.
    + destruct (varyColor rand_values seed) as [c seed'].
      eexists _, _. split; [done|]. split; [by apply well_formed_addNewPoint|].
      intros row col q Hq.
      destruct (decide (row = y ∧ col = x)) as [[-> ->]|Hne].
      * right. rewrite Hp in Hq. injection Hq as <-.
        split; [lia|]. split; [apply list_elem_of_here|].
        exists c. by eapply cell_addNewPoint_eq.
      * left. rewrite cell_addNewPoint_ne by lia. done.
    + eexists _, _. split; [done|]. split; [done|]. apply paints_only_refl.
  - eexists _, _. split; [done|]. split; [done|]. apply paints_only_refl.
Qed.

Lemma drawLine_loop_paints x1 y1 x2 y2 fuel :
  ∀ points seed x y err i j,
    well_formed points →
    on_track x1 y1 x2 y2 x y err i j →
    Z.abs (x2 - x1) - i + (Z.abs (y2 - y1) - j) < Z.of_nat fuel →
    ∃ points' seed',
      drawLine_loop rand_values fuel points seed
        (Z.abs (x2 - x1)) (Z.abs (y2 - y1))
        (if x1 <? x2 then 1 else -1) (if y1 <? y2 then 1 else -1)
        x2 y2 x y err = Done (points', seed') ∧
      well_formed points' ∧
      paints_only
        (line_cells fuel (Z.abs (x2 - x1)) (Z.abs (y2 - y1))
           (if x1 <? x2 then 1 else -1) (if y1 <? y2 then 1 else -1)
           x2 y2 x y err)
        points points'.
Proof.
  induction fuel as [|fuel IH]; intros points seed x y err i j Hwf Ht Hfuel.
  - unfold on_track in Ht. lia.
  - cbn [drawLine_loop line_cells].
    destruct (drawLine_plot_paints points seed x y Hwf)
      as (points1 & seed1 & -> & Hwf1 & Hp1).
    destruct ((x =? x2) && (y =? y2)) eqn:Hend.
    + eexists _, _. split; [done|]. done.
    + assert (Hne : ¬ (x = x2 ∧ y = y2)).
      { rewrite andb_false_iff in Hend. lia. }
      destruct (on_track_advance _ _ _ _ _ _ _ _ _ Ht Hne)
        as (i' & j' & Ht' & Hi & Hj & Hij).
      destruct (drawLine_advance _ _ _ _ x y err) as [[x' y'] err'].
      destruct (IH points1 seed1 x' y' err' i' j' Hwf1 Ht')
        as (points2 & seed2 & Hrun & Hwf2 & Hp2); [lia|].
      exists points2, seed2. split; [done|]. split; [done|].
      by apply (paints_only_trans [(x, y)] _ points points1 points2).
Qed.

Lemma line_cells_fuel x1 y1 x2 y2 fuel :
  ∀ fuel' x y err i j,
    on_track x1 y1 x2 y2 x y err i j →
    Z.abs (x2 - x1) - i + (Z.abs (y2 - y1) - j) < Z.of_nat fuel →
    Z.abs (x2 - x1) - i + (Z.abs (y2 - y1) - j) < Z.of_nat fuel' →
    line_cells fuel (Z.abs (x2 - x1)) (Z.abs (y2 - y1))
      (if x1 <? x2 then 1 else -1) (if y1 <? y2 then 1 else -1) x2 y2 x y err =
    line_cells fuel' (Z.abs (x2 - x1)) (Z.abs (y2 - y1))
      (if x1 <? x2 then 1 else -1) (if y1 <? y2 then 1 else -1) x2 y2 x y err.
Proof.
  induction fuel as [|fuel IH]; intros fuel' x y err i j Ht Hfuel Hfuel'.
  - unfold on_track in Ht. lia.
  - destruct fuel' as [|fuel']; [unfold on_track in Ht; lia|].
    cbn [line_cells]. f_equal.
    destruct ((x =? x2) && (y =? y2)) eqn:Hend; [done|].
    assert (Hne : ¬ (x = x2 ∧ y = y2)).
    { rewrite andb_false_iff in Hend. lia. }
    destruct (on_track_advance _ _ _ _ _ _ _ _ _ Ht Hne)
      as (i' & j' & Ht' & Hi & Hj & Hij).
    destruct (drawLine_advance _ _ _ _ x y err) as [[x' y'] err'].
    apply (IH fuel' x' y' err' i' j' Ht'); lia.
Qed.

Lemma drawLine_returns (points : Grid) (seed fuel : nat)
    (x1 y1 x2 y2 : Z) :
  well_formed points →
  Z.abs (x2 - x1) + Z.abs (y2 - y1) < Z.of_nat fuel →
  ∃ points' seed',
    drawLine rand_values fuel points seed x1 y1 x2 y2 = Done (points', seed') ∧
    well_formed points' ∧
    ∀ row col p,
      cell points row col = Some p →
      cell points' row col = Some p ∨
      (exists_ p = 0 ∧ (col, row) ∈ bresenham x1 y1 x2 y2 ∧
       ∃ c, cell points' row col = Some {| exists_ := 1; color := c |}).
Proof.
  intros Hwf Hfuel. unfold drawLine, bresenham.
  pose proof (on_track_start x1 y1 x2 y2) as Ht.
  destruct (drawLine_loop_paints x1 y1 x2 y2 fuel points seed _ _ _ 0 0 Hwf Ht)
    as (points' & seed' & Hrun & Hwf' & Hp); [lia|].
  exists points', seed'. split; [done|]. split; [done|].
  rewrite (line_cells_fuel x1 y1 x2 y2 _ fuel _ _ _ 0 0 Ht); [done|lia|lia].
Qed.

Lemma drawLine_paints_only_Z (points : Grid) (seed fuel : nat)
    (x1 y1 x2 y2 : Z) :
  well_formed points →
  Z.abs (x2 - x1) + Z.abs (y2 - y1) < Z.of_nat fuel →
  ∃ points' seed',
    drawLine rand_values fuel points seed x1 y1 x2 y2 = Done (points', seed') ∧
    well_formed points' ∧
    (∀ row col p,
       cell points row col = Some p → exists_ p ≠ 0 →
       cell points' row col = Some p) ∧
    (∀ row col,
       (col, row) ∉ bresenham x1 y1 x2 y2 →
       cell points' row col = cell points row col) ∧
    (∀ row col p,
       cell points row col = Some p → cell points' row col ≠ Some p →
       exists_ p = 0 ∧ in_grid row col = true ∧
       (col, row) ∈ bresenham x1 y1 x2 y2 ∧
       (x1 `min` x2 ≤ col ≤ x1 `max` x2) ∧
       (y1 `min` y2 ≤ row ≤ y1 `max` y2) ∧
       ∃ c, cell points' row col = Some {| exists_ := 1; color := c |}).
Proof.
  intros Hwf Hfuel.
  destruct (drawLine_returns points seed fuel x1 y1 x2 y2 Hwf Hfuel)
    as (points' & seed' & Hrun & Hwf' & Hp).
  exists points', seed'. split; [done|]. split; [done|]. split; [|split].
  - intros row col p Hc Htaken.
    destruct (Hp row col p Hc) as [?|(? & _)]; done.
  - intros row col Hoff.
    destruct (cell points row col) as [p|] eqn:Hc.
    + destruct (Hp row col p Hc) as [?|(_ & ? & _)]; done.
    + destruct (in_grid row col) eqn:Hin.
      * destruct (well_formed_cell points row col Hwf Hin) as [p Hsome].
        congruence.
      * unfold cell. by rewrite Hin.
  - intros row col p Hc Hdiff.
    destruct (Hp row col p Hc) as [?|(Hfree & Hline & Hnew)]; [done|].
    destruct (bresenham_between _ _ _ _ _ _ Hline) as [Hx Hy].
    split; [done|]. split; [by eapply cell_in_grid|]. done.
Qed.

End DrawLine.

Lemma drawLine_loop_more_fuel rv fuel :
  ∀ fuel' points seed dx dy sx sy x2 y2 x y err result,
    (fuel ≤ fuel')%nat →
    drawLine_loop rv fuel points seed dx dy sx sy x2 y2 x y err = Done result →
    drawLine_loop rv fuel' points seed dx dy sx sy x2 y2 x y err = Done result.
Proof.
  induction fuel as [|fuel IH]; intros fuel' points seed dx dy sx sy x2 y2 x y
    err result Hle Hrun; [done|].
  destruct fuel' as [|fuel']; [lia|].
  cbn [drawLine_loop] in *.
  destruct (drawLine_plot rv points seed x y) as [[points1 seed1]| |]; try done.
  destruct ((x =? x2) && (y =? y2)); [done|].
  destruct (drawLine_advance dx dy sx sy x y err) as [[x' y'] err'].
  apply IH; [lia|done].
Qed.

Lemma cell_occupancy (points : Grid) row col p :
  cell points row col = Some p →
  occupancy points !! Z.to_nat row ≫= (λ line : list Z, line !! Z.to_nat col)
    = Some (exists_ p).
Proof.
  unfold cell, occupancy. destruct (in_grid row col); [|done].
  rewrite list_lookup_fmap.
  destruct (points !! Z.to_nat row) as [line|]; [|done].
  cbn [fmap option_fmap option_map mbind option_bind].
  rewrite list_lookup_fmap. by intros ->.
Qed.

(** C9.  On a grid whose cells are all free, whatever colours it holds and
    whatever [rand()] returns, [drawLine] from (0,0) to (5,0) returns an array
    in which the cells with [exists == 1] are exactly (0,0), (1,0), ..., (5,0):
    six cells, all in row 0; every other cell has [exists == 0]. *)
Theorem drawLine_row_of_six (rv : nat → Z) (junk : Z → Z → Color)
    (seed : nat) :
  ∃ points',
    (∀ fuel, drawLine rv (6 + fuel) (init_grid junk) seed 0 0 5 0
               = Done (points', (18 + seed)%nat)) ∧
    well_formed points' ∧
    count_cells shown points' = 6%nat ∧
    ∀ row col p,
      cell points' row col = Some p →
      (exists_ p = 1 ↔ row = 0 ∧ 0 ≤ col ≤ 5) ∧
      (exists_ p = 0 ∨ exists_ p = 1).
Proof.
  set (run := drawLine rv 6 (init_grid junk) seed 0 0 5 0).
  set (points' := match run with Done (points', _) => points' | _ => [] end).
  assert (Hrun : run = Done (points', (18 + seed)%nat)).
  { subst points' run. vm_compute. reflexivity. }
  exists points'. split.
  { intros fuel. unfold drawLine.
    apply (drawLine_loop_more_fuel rv 6); [lia|]. exact Hrun. }
  split.
  { destruct (drawLine_returns rv (init_grid junk) seed 6 0 0 5 0)
      as (points2 & seed2 & Hrun2 & Hwf2 & _).
    - apply well_formed_init_grid.
    - lia.
    - fold run in Hrun2. rewrite Hrun in Hrun2. by injection Hrun2 as -> _. }
  split.
  { subst points' run. vm_compute. reflexivity. }
  intros row col p Hp.
  pose proof (cell_in_grid _ _ _ _ Hp) as Hin. apply in_grid_true in Hin.
  apply cell_occupancy in Hp.
  assert (Htable : occupancy points' =
    (λ row, (λ col, if (row =? 0) && (col <=? 5) then 1 else 0)
              <$> seqZ 0 COLS) <$> seqZ 0 ROWS).
  { subst points' run. vm_compute. reflexivity. }
  rewrite Htable in Hp.
  rewrite lookup_fmap_seqZ in Hp by lia.
  cbn [mbind option_bind] in Hp.
  rewrite lookup_fmap_seqZ in Hp by lia. injection Hp as <-.
  destruct (row =? 0) eqn:Hrow, (col <=? 5) eqn:Hcol; simpl; lia.
Qed.

(** ** [sandGravity] *)

Lemma load_well_formed points row col :
  well_formed points → in_grid row col = true →
  ∃ p, cell points row col = Some p ∧ load points row col = Done p.
Proof.
  intros Hwf Hin. destruct (well_formed_cell points row col Hwf Hin) as [p Hp].
  exists p. split; [done|]. by apply load_Done.
Qed.

Lemma load_outside points row col :
  in_grid row col = false → load points row col = OutOfRange row col.
Proof. intros Hout. unfold load, cell. by rewrite Hout. Qed.

(** The step every moving branch of [sandGravity] takes: mark the source,
    place the grain at the target. *)
Lemma move_keeps points col row tcol trow c row' col' :
  in_grid row col = true →
  (row' ≠ row ∨ col' ≠ col) → (row' ≠ trow ∨ col' ≠ tcol) →
  cell (snd (addNewPoint (update (set_exists (-1)) row col points) tcol trow c))
       row' col' = cell points row' col'.
Proof.
  intros Hin Hsrc Htgt. rewrite cell_addNewPoint_ne by done.
  by rewrite cell_update_ne.
Qed.

Lemma sandGravity_body_down_right_free points col row c p :
  well_formed points →
  1 ≤ col < COLS - 1 → 0 ≤ row < ROWS - 1 →
  cell points (row + 1) (col + 1) = Some p → exists_ p = 0 →
  ∃ points',
    sandGravity_body points col row c = Done (points', 1) ∧
    well_formed points' ∧
    cell points' (row + 1) (col + 1) = Some p.
Proof.
  intros Hwf Hcol Hrow Hp Hfree.
  assert (Hsrc : in_grid row col = true) by (apply in_grid_true; lia).
  destruct (load_well_formed points row (col + 1) Hwf) as (p1 & _ & Hl1);
    [apply in_grid_true; lia|].
  destruct (load_well_formed points (row + 1) (col - 1) Hwf) as (p2 & _ & Hl2);
    [apply in_grid_true; lia|].
  assert (Hl3 : load points (row + 1) (col + 1) = Done p) by by apply load_Done.
  unfold sandGravity_body, store. rewrite Hl1, Hl2, Hl3, Hsrc. cbn [bind].
  destruct (exists_ p1 =? 0); [|destruct (exists_ p2 =? 0)];
    [| |rewrite Hfree; cbn [Z.eqb]];
    (eexists; split; [reflexivity|]; split;
     [by apply well_formed_addNewPoint, well_formed_update
     |rewrite move_keeps by (done || lia); done]).
Qed.

Lemma sandGravity_loop_never_exits fuel :
  ∀ points col row c p,
    well_formed points →
    1 ≤ col < COLS - 1 → 0 ≤ row < ROWS - 1 →
    cell points (row + 1) (col + 1) = Some p → exists_ p = 0 →
    sandGravity_loop fuel points col row c 1 = OutOfFuel.
Proof.
  induction fuel as [|fuel IH]; intros points col row c p Hwf Hcol Hrow Hp Hfree;
    [done|].
  cbn [sandGravity_loop Z.eqb Pos.eqb].
  destruct (sandGravity_body_down_right_free points col row c p)
    as (points' & -> & Hwf' & Hp'); try done.
  by apply (IH points' col row c p).
Qed.

(** C6 (the source falls short of it).  Started on a cell away from the left
    and right columns and from the bottom row, with the cell at
    [(col + 1, row + 1)] free, the loop of [sandGravity] never exits: no
    branch writes to that cell, so the third test succeeds in every iteration
    that reaches it and [falling] stays 1.  No amount of fuel yields a
    result. *)
Theorem sandGravity_never_settles (points : Grid) (col row : Z) (fuel : nat) :
  well_formed points →
  1 ≤ col < COLS - 1 → 0 ≤ row < ROWS - 1 →
  (∀ p, cell points (row + 1) (col + 1) = Some p → exists_ p = 0) →
  sandGravity fuel points col row = OutOfFuel.
Proof.
  intros Hwf Hcol Hrow Hfree.
  destruct (load_well_formed points row col Hwf) as (p & _ & Hl);
    [apply in_grid_true; lia|].
  destruct (load_well_formed points (row + 1) (col + 1) Hwf) as (q & Hq & _);
    [apply in_grid_true; lia|].
  unfold sandGravity. rewrite Hl. cbn [bind].
  apply (sandGravity_loop_never_exits fuel points col row (color p) q); auto.
Qed.

Lemma sandGravity_never_settles_witness :
  sandGravity 1000 (grains [(1, 1)]) 1 1 = OutOfFuel.
Proof.
  apply (sandGravity_never_settles (grains [(1, 1)]) 1 1 1000).
  - apply well_formed_addNewPoint, well_formed_init_grid.
  - grid_lia.
  - grid_lia.
  - intros p Hp. vm_compute in Hp. by injection Hp as <-.
Defined.

Lemma sandGravity_loop_more_fuel fuel :
  ∀ fuel' points col row c falling result,
    (fuel ≤ fuel')%nat →
    sandGravity_loop fuel points col row c falling = Done result →
    sandGravity_loop fuel' points col row c falling = Done result.
Proof.
  induction fuel as [|fuel IH]; intros fuel' points col row c falling result
    Hle Hrun.
  - destruct fuel'; cbn [sandGravity_loop] in *;
      by destruct (falling =? 1).
  - destruct fuel' as [|fuel']; [lia|]. cbn [sandGravity_loop] in *.
    destruct (falling =? 1); [|done].
    destruct (sandGravity_body points col row c) as [[points1 falling1]| |];
      try done.
    apply (IH fuel'); [lia|done].
Qed.

Lemma sandGravity_more_fuel fuel extra points col row result :
  sandGravity fuel points col row = Done result →
  sandGravity (fuel + extra) points col row = Done result.
Proof.
  unfold sandGravity. destruct (load points row col); try done.
  cbn [bind]. apply sandGravity_loop_more_fuel. lia.
Qed.

(** C1 (the source falls short of it).  With grains at (1,1) and (2,2), one
    call of [sandGravity] on the grain at (1,1) returns after three
    iterations with grains of that colour at (2,1) and at (0,2) and the source
    marked [exists = -1]: three cells are shown where two were, and four
    cells are not free where two were. *)
Theorem sandGravity_duplicates_grain :
  ∃ points',
    (∀ fuel, sandGravity (3 + fuel) (grains [(1, 1); (2, 2)]) 1 1
               = Done points') ∧
    count_cells shown (grains [(1, 1); (2, 2)]) = 2%nat ∧
    count_cells shown points' = 3%nat ∧
    count_cells taken (grains [(1, 1); (2, 2)]) = 2%nat ∧
    count_cells taken points' = 4%nat ∧
    cell points' 1 1 = Some {| exists_ := -1; color := sand |} ∧
    cell points' 1 2 = Some {| exists_ := 1; color := sand |} ∧
    cell points' 2 0 = Some {| exists_ := 1; color := sand |}.
Proof.
  set (points' := match sandGravity 3 (grains [(1, 1); (2, 2)]) 1 1 with
                  | Done points' => points'
                  | _ => []
                  end).
  exists points'. split; [intros fuel; apply sandGravity_more_fuel|];
    subst points'; vm_compute; repeat split.
Qed.

(** C3 (the source falls short of it).  The first test of [sandGravity] reads
    [points[row][col + 1]], the cell to the right, not the cell below.  With
    the grain at (1,1), the cell below it, (1,2), free and the cells (2,1),
    (0,2) and (2,2) occupied, the call returns the array unchanged: the grain
    does not move down. *)
Theorem sandGravity_ignores_cell_below :
  cell (grains [(1, 1); (2, 1); (0, 2); (2, 2)]) 2 1
    = Some {| exists_ := 0; color := black |} ∧
  ∀ fuel, sandGravity (1 + fuel) (grains [(1, 1); (2, 1); (0, 2); (2, 2)]) 1 1
            = Done (grains [(1, 1); (2, 1); (0, 2); (2, 2)]).
Proof.
  split; [|intros fuel; apply sandGravity_more_fuel]; vm_compute; reflexivity.
Qed.

(** C4 (the source falls short of it).  With the grain at (1,1), the cells
    below, (1,2), and below-left, (0,2), occupied and the cell below-right,
    (2,2), free, the third branch places the grain at [(col - 1, row + 1)]
    again: one iteration marks the source -1 and rewrites (0,2), the next
    iteration does the same, (2,2) stays free and the call never returns. *)
Theorem sandGravity_down_right_unreached :
  ∃ points',
    sandGravity_body (grains [(1, 1); (2, 1); (1, 2); (0, 2)]) 1 1 sand
      = Done (points', 1) ∧
    sandGravity_body points' 1 1 sand = Done (points', 1) ∧
    cell points' 1 1 = Some {| exists_ := -1; color := sand |} ∧
    cell points' 2 2 = Some {| exists_ := 0; color := black |} ∧
    ∀ fuel, sandGravity fuel (grains [(1, 1); (2, 1); (1, 2); (0, 2)]) 1 1
              = OutOfFuel.
Proof.
  set (points' :=
         match sandGravity_body (grains [(1, 1); (2, 1); (1, 2); (0, 2)])
                 1 1 sand with
         | Done (points', _) => points'
         | _ => []
         end).
  exists points'. repeat split; try (subst points'; vm_compute; reflexivity).
  intros fuel. unfold sandGravity.
  replace (load (grains [(1, 1); (2, 1); (1, 2); (0, 2)]) 1 1)
    with (Done {| exists_ := 1; color := sand |})
    by (vm_compute; reflexivity).
  cbn [bind color].
  apply sandGravity_loop_never_exits
    with (p := {| exists_ := 0; color := black |}).
  - do 4 apply well_formed_addNewPoint. apply well_formed_init_grid.
  - grid_lia.
  - grid_lia.
  - vm_compute. reflexivity.
  - reflexivity.
Qed.

(** C5 (the source falls short of it).  For a cell in the rightmost column
    the first neighbour test reads [points[row][COLS]], a subscript outside
    the array, before anything else happens. *)
Theorem sandGravity_reads_past_right_edge (points : Grid) (row : Z)
    (fuel : nat) :
  well_formed points → 0 ≤ row < ROWS →
  sandGravity (S fuel) points (COLS - 1) row = OutOfRange row COLS.
Proof.
  intros Hwf Hrow.
  destruct (load_well_formed points row (COLS - 1) Hwf) as (p & _ & Hl);
    [apply in_grid_true; grid_lia|].
  unfold sandGravity. rewrite Hl.
  cbn [bind sandGravity_loop Z.eqb Pos.eqb]. unfold sandGravity_body.
  replace (COLS - 1 + 1) with COLS by lia.
  rewrite load_outside; [done|]. apply in_grid_false. lia.
Qed.

Lemma sandGravity_reads_past_right_edge_witness :
  sandGravity 1 (grains [(63, 0)]) 63 0 = OutOfRange 0 64.
Proof.
  apply (sandGravity_reads_past_right_edge (grains [(63, 0)]) 0 0).
  - apply well_formed_addNewPoint, well_formed_init_grid.
  - grid_lia.
Defined.

(** The same on the bottom row and in the leftmost column, in the second
    test. *)
Lemma sandGravity_reads_below_floor (fuel : nat) :
  sandGravity (2 + fuel) (grains [(1, 47)]) 1 47 = OutOfRange 48 0.
Proof. vm_compute. reflexivity. Qed.

Lemma sandGravity_reads_left_of_wall (fuel : nat) :
  sandGravity (2 + fuel) (grains [(0, 0)]) 0 0 = OutOfRange 1 (-1).
Proof. vm_compute. reflexivity. Qed.

(** C7 (the source falls short of it).  The grain at (1,1) has grains below,
    below-left and below-right of it, at (1,2), (0,2) and (2,2), and a free
    cell to its right.  The call marks the source -1 and places the grain at
    (2,1): the array changes. *)
Theorem sandGravity_moves_boxed_grain :
  ∃ points',
    (∀ fuel, sandGravity (2 + fuel) (grains [(1, 1); (1, 2); (0, 2); (2, 2)])
               1 1 = Done points') ∧
    cell (grains [(1, 1); (1, 2); (0, 2); (2, 2)]) 1 2
      = Some {| exists_ := 0; color := black |} ∧
    cell points' 1 1 = Some {| exists_ := -1; color := sand |} ∧
    cell points' 1 2 = Some {| exists_ := 1; color := sand |}.
Proof.
  set (points' :=
         match sandGravity 2 (grains [(1, 1); (1, 2); (0, 2); (2, 2)]) 1 1 with
         | Done points' => points'
         | _ => []
         end).
  exists points'. split; [intros fuel; apply sandGravity_more_fuel|];
    subst points'; vm_compute; repeat split.
Qed.

(** ** The loop of [main] *)

Section Frame.

Variable rand_values : nat → Z.
Variable draw_status : Z → Z → Z.

Lemma for_each_calls {A : Type} (body : A → outcome (list action))
    (cells : A → list (Z * Z)) (P : A → Prop) (l : list A) :
  (∀ a, P a → ∃ out, body a = Done out ∧ draw_calls out = cells a) →
  Forall P l →
  ∃ out, for_each body l = Done out ∧ draw_calls out = l ≫= cells.
Proof.
  intros Hbody. induction 1 as [|a l Ha _ (out2 & IHrun & IHcalls)].
  - by exists [].
  - destruct (Hbody a Ha) as (out1 & Hrun & Hcalls).
    exists (out1 ++ out2). cbn [for_each]. rewrite Hrun, IHrun. cbn [bind].
    split; [done|]. unfold draw_calls in *. rewrite omap_app.
    by rewrite Hcalls, IHcalls.
Qed.

Lemma drawPoint_calls points row col :
  well_formed points → in_grid row col = true →
  ∃ out, drawPoint draw_status points row col = Done out ∧
    draw_calls out =
      match cell points row col with
      | Some p => if exists_ p =? 1 then [(col, row)] else []
      | None => []
      end.
Proof.
  intros Hwf Hin.
  destruct (load_well_formed points row col Hwf Hin) as (p & Hp & Hl).
  unfold drawPoint. rewrite Hl, Hp. cbn [bind].
  destruct (exists_ p =? 1); [|by eexists].
  eexists. split; [done|]. by destruct (draw_status col row =? 0).
Qed.

Lemma drawAllPoints_calls points :
  well_formed points →
  ∃ out, drawAllPoints draw_status points = Done out ∧
    draw_calls out = occupied_cells points.
Proof.
  intros Hwf. unfold drawAllPoints, occupied_cells.
  destruct (for_each_calls
              (λ row, for_each (drawPoint draw_status points row)
                               (seqZ 0 COLS))
              (λ row, col ← seqZ 0 COLS;
                      match cell points row col with
                      | Some p => if exists_ p =? 1 then [(col, row)] else []
                      | None => []
                      end)
              (λ row, 0 ≤ row < ROWS) (seqZ 0 ROWS))
    as (out & -> & Hcalls).
  - intros row Hrow.
    apply for_each_calls with (P := λ col, 0 ≤ col < COLS).
    + intros col Hcol. apply drawPoint_calls; [done|].
      apply in_grid_true. lia.
    + apply Forall_forall. intros col Hcol. apply elem_of_seqZ in Hcol. lia.
  - apply Forall_forall. intros row Hrow. apply elem_of_seqZ in Hrow. lia.
  - cbn [bind]. eexists. split; [done|].
    unfold draw_calls in *. rewrite !omap_app. cbn. rewrite Hcalls.
    by rewrite app_nil_r.
Qed.

Lemma points_handle_events events st :
  points (fold_left handle_event events st) = points st.
Proof.
  revert st. induction events as [|e events IH]; intros st; [done|].
  cbn [fold_left]. rewrite IH. by destruct e.
Qed.

End Frame.

(** A press at pixel (35, 27) on the empty grid paints the cell (3, 2) and
    draws it. *)
Example frame_first_press :
  ∃ st,
    frame (λ n, Z.of_nat n) (λ _ _, 0) 1 [SDL_MOUSEBUTTONDOWN] (35, 27)
          (idle (grains [])) =
      Done (st,
            [SDL_PollEvent SDL_MOUSEBUTTONDOWN; SDL_GetMouseState 35 27;
             SDL_SetRenderDrawColor 0 0 0 255; SDL_RenderClear;
             SDL_SetRenderDrawColor 200 171 62 255; SDL_RenderDrawPoint 3 2;
             SDL_RenderPresent; SDL_Delay 16]) ∧
    occupied_cells (points st) = [(3, 2)] ∧
    (mouseHeld st, prevX st, prevY st, seed st) = (true, 3, 2, 3%nat).
Proof.
  set (run := frame (λ n, Z.of_nat n) (λ _ _, 0) 1 [SDL_MOUSEBUTTONDOWN]
                    (35, 27) (idle (grains []))).
  exists (match run with Done (st, _) => st | _ => idle [] end).
  subst run. vm_compute. repeat split.
Qed.

(** * Further properties *)

(** ** Further properties of [varyColor] and [addNewPoint] *)

(** X1.  When [rand()] returns non-negative values, as C's does, [varyColor]
    yields red in 200..219, green in 170..189 and blue in 60..69, the ranges
    its comments give, and makes exactly three calls of [rand()]. *)
Theorem varyColor_band (rand_values : nat → Z) (seed : nat) :
  (∀ n, 0 ≤ rand_values n) →
  (200 ≤ r (fst (varyColor rand_values seed)) ≤ 219) ∧
  (170 ≤ g (fst (varyColor rand_values seed)) ≤ 189) ∧
  (60 ≤ b (fst (varyColor rand_values seed)) ≤ 69) ∧
  snd (varyColor rand_values seed) = (seed + 3)%nat.
Proof.
  intros Hrand. unfold varyColor, rand, Uint8. cbn [fst snd r g b].
  pose proof (Hrand seed) as H1. pose proof (Hrand (S seed)) as H2.
  pose proof (Hrand (S (S seed))) as H3.
  pose proof (Z.rem_bound_pos (rand_values seed) 20 H1 ltac:(lia)).
  pose proof (Z.rem_bound_pos (rand_values (S seed)) 20 H2 ltac:(lia)).
  pose proof (Z.rem_bound_pos (rand_values (S (S seed))) 10 H3 ltac:(lia)).
  rewrite !Z.mod_small by lia. repeat split; lia.
Qed.

Lemma varyColor_band_witness :
  (200 ≤ r (fst (varyColor (λ n, 37 + Z.of_nat n) 0)) ≤ 219) ∧
  (170 ≤ g (fst (varyColor (λ n, 37 + Z.of_nat n) 0)) ≤ 189) ∧
  (60 ≤ b (fst (varyColor (λ n, 37 + Z.of_nat n) 0)) ≤ 69) ∧
  snd (varyColor (λ n, 37 + Z.of_nat n) 0) = (0 + 3)%nat.
Proof.
  apply (varyColor_band (λ n, 37 + Z.of_nat n) 0). intros n. lia.
Defined.

Lemma update_update f1 f2 row col points :
  update f1 row col (update f2 row col points) =
  update (f1 ∘ f2) row col points.
Proof.
  unfold update. rewrite list_alter_alter_eq.
  apply list_alter_ext; [|done]. intros line _. simpl.
  apply list_alter_alter_eq.
Qed.

Lemma update_ext f1 f2 row col points :
  (∀ p, f1 p = f2 p) → update f1 row col points = update f2 row col points.
Proof.
  intros Hext. unfold update. apply list_alter_ext; [|done]. intros line _.
  apply list_alter_ext; [|done]. intros p _. apply Hext.
Qed.

Lemma update_commute f1 f2 row1 col1 row2 col2 points :
  in_grid row1 col1 = true → in_grid row2 col2 = true →
  row1 ≠ row2 ∨ col1 ≠ col2 →
  update f1 row1 col1 (update f2 row2 col2 points) =
  update f2 row2 col2 (update f1 row1 col1 points).
Proof.
  intros Hin1 Hin2 Hne. apply in_grid_true in Hin1, Hin2. unfold update.
  destruct (decide (Z.to_nat row1 = Z.to_nat row2)) as [Heq|Hrow].
  - rewrite Heq, !list_alter_alter_eq.
    apply list_alter_ext; [|done]. intros line _. simpl.
    apply list_alter_alter_ne. lia.
  - by apply list_alter_alter_ne.
Qed.

(** X2.  Placing a point twice in the same cell leaves what placing the
    second alone leaves, result included: the later colour wins, and outside
    the bounds both calls fail and change nothing. *)
Theorem addNewPoint_overwrites (points : Grid) (col row : Z) (c1 c2 : Color) :
  addNewPoint (snd (addNewPoint points col row c1)) col row c2 =
  addNewPoint points col row c2.
Proof.
  destruct (in_grid row col) eqn:Hin.
  - rewrite !addNewPoint_in by done. cbn [snd]. f_equal.
    rewrite !update_update. apply update_ext. by intros [].
  - by rewrite !addNewPoint_out.
Qed.

(** X3.  Placing points in two different cells gives the same array in
    either order, whether or not the cells are inside the bounds. *)
Theorem addNewPoint_commutes (points : Grid) (col1 row1 col2 row2 : Z)
    (c1 c2 : Color) :
  row1 ≠ row2 ∨ col1 ≠ col2 →
  snd (addNewPoint (snd (addNewPoint points col1 row1 c1)) col2 row2 c2) =
  snd (addNewPoint (snd (addNewPoint points col2 row2 c2)) col1 row1 c1).
Proof.
  intros Hne.
  destruct (in_grid row1 col1) eqn:Hin1, (in_grid row2 col2) eqn:Hin2;
    rewrite ?(addNewPoint_in _ col1 row1), ?(addNewPoint_in _ col2 row2),
      ?(addNewPoint_out _ col1 row1), ?(addNewPoint_out _ col2 row2) by done;
    cbn [snd]; try done.
  rewrite !update_update.
  apply update_commute; [done|done|]. destruct Hne; [left|right]; congruence.
Qed.

Lemma addNewPoint_commutes_witness :
  snd (addNewPoint (snd (addNewPoint (grains []) 3 2 sand)) 70 1 black) =
  snd (addNewPoint (snd (addNewPoint (grains []) 70 1 black)) 3 2 sand).
Proof.
  apply (addNewPoint_commutes (grains []) 3 2 70 1 sand black). lia.
Defined.

(** ** The line walked by [drawLine] *)

Lemma steady_start dx dy :
  0 ≤ dx → 0 ≤ dy → 0 < dx + dy → steady dx dy (dx - dy).
Proof. unfold steady. lia. Qed.

Lemma on_track_advance_major x1 y1 x2 y2 x y err i j :
  on_track x1 y1 x2 y2 x y err i j →
  steady (Z.abs (x2 - x1)) (Z.abs (y2 - y1)) err →
  ¬ (x = x2 ∧ y = y2) →
  ∃ i' j',
    (let '(x', y', err') :=
       drawLine_advance (Z.abs (x2 - x1)) (Z.abs (y2 - y1))
         (if x1 <? x2 then 1 else -1) (if y1 <? y2 then 1 else -1) x y err in
     on_track x1 y1 x2 y2 x' y' err' i' j' ∧
     steady (Z.abs (x2 - x1)) (Z.abs (y2 - y1)) err') ∧
    i ≤ i' ∧ j ≤ j' ∧
    (Z.abs (y2 - y1) ≤ Z.abs (x2 - x1) → i' = i + 1) ∧
    (Z.abs (x2 - x1) ≤ Z.abs (y2 - y1) → j' = j + 1).
Proof.
  intros Ht Hs Hne. rewrite (on_track_end _ _ _ _ _ _ _ _ _ Ht) in Hne.
  unfold on_track, steady in *. destruct Ht as (Hi & Hj & Hx & Hy & Herr).
  set (dx := Z.abs (x2 - x1)) in *. set (dy := Z.abs (y2 - y1)) in *.
  set (sx := if x1 <? x2 then 1 else -1) in *.
  set (sy := if y1 <? y2 then 1 else -1) in *.
  unfold drawLine_advance.
  destruct (2 * err >? - dy) eqn:Hgo_x, (2 * err <? dx) eqn:Hgo_y.
  - exists (i + 1), (j + 1).
    assert (i < dx) by nia. assert (j < dy) by nia. repeat split; lia.
  - exists (i + 1), j.
    assert (i < dx) by nia. repeat split; lia.
  - exists i, (j + 1).
    assert (j < dy) by nia. repeat split; lia.
  - exfalso. apply Hne. lia.
Qed.

Lemma line_cells_length_x x1 y1 x2 y2 fuel :
  Z.abs (y2 - y1) ≤ Z.abs (x2 - x1) →
  ∀ x y err i j,
    on_track x1 y1 x2 y2 x y err i j →
    steady (Z.abs (x2 - x1)) (Z.abs (y2 - y1)) err →
    Z.abs (x2 - x1) - i + (Z.abs (y2 - y1) - j) < Z.of_nat fuel →
    Z.of_nat (length (line_cells fuel (Z.abs (x2 - x1)) (Z.abs (y2 - y1))
            (if x1 <? x2 then 1 else -1) (if y1 <? y2 then 1 else -1)
            x2 y2 x y err)) = Z.abs (x2 - x1) - i + 1.
Proof.
  intros Hmajor.
  induction fuel as [|fuel IH]; intros x y err i j Ht Hs Hfuel.
  - unfold on_track in Ht. lia.
  - cbn [line_cells length].
    destruct ((x =? x2) && (y =? y2)) eqn:Hend.
    + assert (Hat : x = x2 ∧ y = y2).
      { apply andb_true_iff in Hend. lia. }
      apply (on_track_end _ _ _ _ _ _ _ _ _ Ht) in Hat. cbn [length]. lia.
    + assert (Hne : ¬ (x = x2 ∧ y = y2)).
      { rewrite andb_false_iff in Hend. lia. }
      destruct (on_track_advance_major _ _ _ _ _ _ _ _ _ Ht Hs Hne)
        as (i' & j' & Hnext & Hii & Hjj & Hi & _).
      destruct (drawLine_advance _ _ _ _ x y err) as [[x' y'] err'].
      destruct Hnext as [Ht' Hs'].
      rewrite Nat2Z.inj_succ, (IH x' y' err' i' j' Ht' Hs'); lia.
Qed.

Lemma line_cells_length_y x1 y1 x2 y2 fuel :
  Z.abs (x2 - x1) ≤ Z.abs (y2 - y1) →
  ∀ x y err i j,
    on_track x1 y1 x2 y2 x y err i j →
    steady (Z.abs (x2 - x1)) (Z.abs (y2 - y1)) err →
    Z.abs (x2 - x1) - i + (Z.abs (y2 - y1) - j) < Z.of_nat fuel →
    Z.of_nat (length (line_cells fuel (Z.abs (x2 - x1)) (Z.abs (y2 - y1))
            (if x1 <? x2 then 1 else -1) (if y1 <? y2 then 1 else -1)
            x2 y2 x y err)) = Z.abs (y2 - y1) - j + 1.
Proof.
  intros Hmajor.
  induction fuel as [|fuel IH]; intros x y err i j Ht Hs Hfuel.
  - unfold on_track in Ht. lia.
  - cbn [line_cells length].
    destruct ((x =? x2) && (y =? y2)) eqn:Hend.
    + assert (Hat : x = x2 ∧ y = y2).
      { apply andb_true_iff in Hend. lia. }
      apply (on_track_end _ _ _ _ _ _ _ _ _ Ht) in Hat. cbn [length]. lia.
    + assert (Hne : ¬ (x = x2 ∧ y = y2)).
      { rewrite andb_false_iff in Hend. lia. }
      destruct (on_track_advance_major _ _ _ _ _ _ _ _ _ Ht Hs Hne)
        as (i' & j' & Hnext & Hii & Hjj & _ & Hj).
      destruct (drawLine_advance _ _ _ _ x y err) as [[x' y'] err'].
      destruct Hnext as [Ht' Hs'].
      rewrite Nat2Z.inj_succ, (IH x' y' err' i' j' Ht' Hs'); lia.
Qed.

(** In exact arithmetic the loop of [drawLine] visits [max(|x2 - x1|, |y2 - y1|) + 1]
    cells: every iteration steps along the longer side of the rectangle. *)
Lemma bresenham_length_Z (x1 y1 x2 y2 : Z) :
  Z.of_nat (length (bresenham x1 y1 x2 y2)) =
    Z.abs (x2 - x1) `max` Z.abs (y2 - y1) + 1.
Proof.
  destruct (decide (x1 = x2 ∧ y1 = y2)) as [[-> ->]|Hne].
  { unfold bresenham. cbn [line_cells]. rewrite !Z.eqb_refl. cbn. lia. }
  assert (Hs : steady (Z.abs (x2 - x1)) (Z.abs (y2 - y1))
                      (Z.abs (x2 - x1) - Z.abs (y2 - y1))).
  { apply steady_start; lia. }
  pose proof (on_track_start x1 y1 x2 y2) as Ht.
  unfold bresenham.
  destruct (Z.le_ge_cases (Z.abs (y2 - y1)) (Z.abs (x2 - x1))) as [Hle|Hle].
  - rewrite (line_cells_length_x x1 y1 x2 y2 _ Hle _ _ _ 0 0 Ht Hs); lia.
  - rewrite (line_cells_length_y x1 y1 x2 y2 _ Hle _ _ _ 0 0 Ht Hs); lia.
Qed.

Lemma line_cells_adjacent x1 y1 x2 y2 fuel :
  ∀ x y err i j k a b,
    on_track x1 y1 x2 y2 x y err i j →
    line_cells fuel (Z.abs (x2 - x1)) (Z.abs (y2 - y1))
      (if x1 <? x2 then 1 else -1) (if y1 <? y2 then 1 else -1)
      x2 y2 x y err !! k = Some a →
    line_cells fuel (Z.abs (x2 - x1)) (Z.abs (y2 - y1))
      (if x1 <? x2 then 1 else -1) (if y1 <? y2 then 1 else -1)
      x2 y2 x y err !! S k = Some b →
    adjacent a b.
Proof.
  induction fuel as [|fuel IH]; intros x y err i j k a b Ht Ha Hb; [done|].
  cbn [line_cells] in Ha, Hb.
  destruct ((x =? x2) && (y =? y2)) eqn:Hend; [done|].
  assert (Hne : ¬ (x = x2 ∧ y = y2)).
  { rewrite andb_false_iff in Hend. lia. }
  destruct (on_track_advance _ _ _ _ _ _ _ _ _ Ht Hne)
    as (i' & j' & Ht' & Hi & Hj & Hij).
  destruct (drawLine_advance _ _ _ _ x y err) as [[x' y'] err'] eqn:Hadv.
  destruct k as [|k].
  - cbn in Ha, Hb. injection Ha as <-.
    destruct fuel as [|fuel]; [done|]. cbn in Hb. injection Hb as <-.
    unfold drawLine_advance in Hadv. unfold adjacent. cbn [fst snd].
    destruct (x1 <? x2), (y1 <? y2),
      (2 * err >? - Z.abs (y2 - y1)) eqn:Hgx,
      (2 * err <? Z.abs (x2 - x1)) eqn:Hgy;
      injection Hadv as <- <- <-;
      (split; [intros [=]; lia|lia]) ||
      (exfalso; unfold on_track in Ht, Ht'; lia).
  - cbn in Ha, Hb. by apply (IH x' y' err' i' j' k a b Ht').
Qed.

(** In exact arithmetic two cells visited one after the other by [drawLine]
    are different and touch by a side or a corner: the walk skips no cell. *)
Lemma bresenham_adjacent_Z (x1 y1 x2 y2 : Z) (k : nat) (a b : Z * Z) :
  bresenham x1 y1 x2 y2 !! k = Some a →
  bresenham x1 y1 x2 y2 !! S k = Some b →
  adjacent a b.
Proof.
  unfold bresenham. apply line_cells_adjacent with (i := 0) (j := 0).
  apply on_track_start.
Qed.

(** ** What [drawLine] paints *)

Section DrawLineMore.

Variable rand_values : nat → Z.

Lemma paints_only_keeps_taken cells before after row col p :
  paints_only cells before after →
  cell before row col = Some p → exists_ p ≠ 0 →
  cell after row col = Some p.
Proof.
  intros Hp Hc Htaken. destruct (Hp row col p Hc) as [?|(? & _)]; done.
Qed.

Lemma drawLine_plot_fills points seed x y :
  well_formed points → in_grid y x = true →
  ∃ points' seed' p,
    drawLine_plot rand_values points seed x y = Done (points', seed') ∧
    cell points' y x = Some p ∧ exists_ p ≠ 0.
Proof.
  intros Hwf Hin. unfold drawLine_plot.
  assert (Hguard : (x >=? 0) && (x <? COLS) && (y >=? 0) && (y <? ROWS) = true).
  { apply in_grid_true in Hin. rewrite !andb_true_iff. lia. }
  rewrite Hguard.
  destruct (well_formed_cell points y x Hwf Hin) as [p Hp].
  unfold load. rewrite Hp. cbn [bind].
  destruct (exists_ p =? 0) eqn:Hfree.
  - destruct (varyColor rand_values seed) as [c seed'].
    eexists _, _, _. split; [done|].
    split; [by eapply cell_addNewPoint_eq|done].
  - eexists _, _, _. split; [done|]. split; [done|]. lia.
Qed.

Lemma drawLine_loop_fills x1 y1 x2 y2 fuel :
  ∀ points seed x y err i j points' seed',
    well_formed points →
    on_track x1 y1 x2 y2 x y err i j →
    Z.abs (x2 - x1) - i + (Z.abs (y2 - y1) - j) < Z.of_nat fuel →
    drawLine_loop rand_values fuel points seed
      (Z.abs (x2 - x1)) (Z.abs (y2 - y1))
      (if x1 <? x2 then 1 else -1) (if y1 <? y2 then 1 else -1)
      x2 y2 x y err = Done (points', seed') →
    ∀ cx cy,
      (cx, cy) ∈ line_cells fuel (Z.abs (x2 - x1)) (Z.abs (y2 - y1))
        (if x1 <? x2 then 1 else -1) (if y1 <? y2 then 1 else -1)
        x2 y2 x y err →
      in_grid cy cx = true →
      ∃ p, cell points' cy cx = Some p ∧ exists_ p ≠ 0.
Proof.
  induction fuel as [|fuel IH];
    intros points seed x y err i j points' seed' Hwf Ht Hfuel Hrun cx cy Hc Hin;
    [done|].
  cbn [drawLine_loop line_cells] in Hrun, Hc.
  destruct (drawLine_plot_paints rand_values points seed x y Hwf)
    as (points1 & seed1 & Hplot & Hwf1 & Hp1).
  rewrite Hplot in Hrun.
  assert (Hhere : cx = x ∧ cy = y →
            ∃ p, cell points1 cy cx = Some p ∧ exists_ p ≠ 0).
  { intros [-> ->].
    destruct (drawLine_plot_fills points seed x y Hwf Hin)
      as (points1' & seed1' & p & Hplot' & Hp & Htaken).
    rewrite Hplot in Hplot'. injection Hplot' as <- <-. eauto. }
  destruct ((x =? x2) && (y =? y2)) eqn:Hend.
  - injection Hrun as <- <-. apply list_elem_of_singleton in Hc.
    injection Hc as -> ->. by apply Hhere.
  - assert (Hne : ¬ (x = x2 ∧ y = y2)).
    { rewrite andb_false_iff in Hend. lia. }
    destruct (on_track_advance _ _ _ _ _ _ _ _ _ Ht Hne)
      as (i' & j' & Ht' & Hi & Hj & Hij).
    destruct (drawLine_advance _ _ _ _ x y err) as [[x' y'] err'].
    apply elem_of_cons in Hc as [Heq|Hc].
    + injection Heq as -> ->.
      destruct Hhere as (p & Hp & Htaken); [done|].
      exists p. split; [|done].
      destruct (drawLine_loop_paints rand_values x1 y1 x2 y2 fuel points1 seed1
                  x' y' err' i' j' Hwf1 Ht') as (points2 & seed2 & Hrun2 & _ & Hp2).
      * lia.
      * rewrite Hrun in Hrun2. injection Hrun2 as <- <-.
        by eapply paints_only_keeps_taken.
    + eapply (IH points1 seed1 x' y' err' i' j'); eauto. lia.
Qed.

Lemma drawLine_fills (points : Grid) (seed fuel : nat)
    (x1 y1 x2 y2 : Z) :
  well_formed points →
  Z.abs (x2 - x1) + Z.abs (y2 - y1) < Z.of_nat fuel →
  ∃ points' seed',
    drawLine rand_values fuel points seed x1 y1 x2 y2 = Done (points', seed') ∧
    ∀ x y,
      (x, y) ∈ bresenham x1 y1 x2 y2 → in_grid y x = true →
      ∃ p, cell points' y x = Some p ∧ exists_ p ≠ 0.
Proof.
  intros Hwf Hfuel.
  pose proof (on_track_start x1 y1 x2 y2) as Ht.
  destruct (drawLine_returns rand_values points seed fuel x1 y1 x2 y2 Hwf Hfuel)
    as (points' & seed' & Hrun & _).
  exists points', seed'. split; [done|]. intros x y Hline Hin.
  unfold drawLine in Hrun. unfold bresenham in Hline.
  rewrite <- (line_cells_fuel x1 y1 x2 y2 fuel _ _ _ _ 0 0 Ht) in Hline
    by lia.
  eapply (drawLine_loop_fills x1 y1 x2 y2 fuel points seed _ _ _ 0 0);
    eauto. lia.
Qed.

Lemma drawLine_loop_outside x1 y1 x2 y2 fuel :
  x1 `max` x2 < 0 ∨ COLS ≤ x1 `min` x2 ∨
  y1 `max` y2 < 0 ∨ ROWS ≤ y1 `min` y2 →
  ∀ points seed x y err i j,
    on_track x1 y1 x2 y2 x y err i j →
    Z.abs (x2 - x1) - i + (Z.abs (y2 - y1) - j) < Z.of_nat fuel →
    drawLine_loop rand_values fuel points seed
      (Z.abs (x2 - x1)) (Z.abs (y2 - y1))
      (if x1 <? x2 then 1 else -1) (if y1 <? y2 then 1 else -1)
      x2 y2 x y err = Done (points, seed).
Proof.
  intros Hout.
  induction fuel as [|fuel IH]; intros points seed x y err i j Ht Hfuel.
  - unfold on_track in Ht. lia.
  - cbn [drawLine_loop].
    assert (Hplot : drawLine_plot rand_values points seed x y
                    = Done (points, seed)).
    { unfold drawLine_plot.
      destruct ((x >=? 0) && (x <? COLS) && (y >=? 0) && (y <? ROWS))
        eqn:Hguard; [|done].
      exfalso. rewrite !andb_true_iff in Hguard.
      unfold on_track in Ht. destruct Ht as (Hi & Hj & Hx & Hy & _).
      destruct (x1 <? x2) eqn:Hsx, (y1 <? y2) eqn:Hsy; lia. }
    rewrite Hplot.
    destruct ((x =? x2) && (y =? y2)) eqn:Hend; [done|].
    assert (Hne : ¬ (x = x2 ∧ y = y2)).
    { rewrite andb_false_iff in Hend. lia. }
    destruct (on_track_advance _ _ _ _ _ _ _ _ _ Ht Hne)
      as (i' & j' & Ht' & Hi & Hj & Hij).
    destruct (drawLine_advance _ _ _ _ x y err) as [[x' y'] err'].
    apply (IH points seed x' y' err' i' j' Ht'). lia.
Qed.

(** In exact arithmetic, when the rectangle spanned by the endpoints lies wholly left of,
    right of, above or below the array, [drawLine] returns the array it was
    given and calls [rand()] not once. *)
Lemma drawLine_outside_grid_Z (points : Grid) (seed fuel : nat)
    (x1 y1 x2 y2 : Z) :
  x1 `max` x2 < 0 ∨ COLS ≤ x1 `min` x2 ∨
  y1 `max` y2 < 0 ∨ ROWS ≤ y1 `min` y2 →
  Z.abs (x2 - x1) + Z.abs (y2 - y1) < Z.of_nat fuel →
  drawLine rand_values fuel points seed x1 y1 x2 y2 = Done (points, seed).
Proof.
  intros Hout Hfuel. unfold drawLine.
  apply (drawLine_loop_outside x1 y1 x2 y2 fuel Hout points seed _ _ _ 0 0).
  - apply on_track_start.
  - lia.
Qed.

(** In exact arithmetic, after [drawLine], every cell of the array on the walked line that
    was free holds a grain, and every one that was not free holds what it
    held: no cell of the line inside the array is left free. *)
Lemma drawLine_fills_line_Z (points : Grid) (seed fuel : nat)
    (x1 y1 x2 y2 : Z) :
  well_formed points →
  Z.abs (x2 - x1) + Z.abs (y2 - y1) < Z.of_nat fuel →
  ∃ points' seed',
    drawLine rand_values fuel points seed x1 y1 x2 y2 = Done (points', seed') ∧
    ∀ x y p,
      (x, y) ∈ bresenham x1 y1 x2 y2 → cell points y x = Some p →
      (exists_ p ≠ 0 → cell points' y x = Some p) ∧
      (exists_ p = 0 →
       ∃ c, cell points' y x = Some {| exists_ := 1; color := c |}).
Proof.
  intros Hwf Hfuel.
  destruct (drawLine_fills points seed fuel x1 y1 x2 y2 Hwf Hfuel)
    as (points' & seed' & Hrun & Hfill).
  destruct (drawLine_returns rand_values points seed fuel x1 y1 x2 y2
              Hwf Hfuel) as (points2 & seed2 & Hrun2 & _ & Hkeep).
  rewrite Hrun in Hrun2. injection Hrun2 as <- <-.
  exists points', seed'. split; [done|]. intros x y p Hline Hc.
  destruct (Hkeep y x p Hc) as [Hsame|(Hfree & _ & Hnew)].
  - split; [done|]. intros Hfree.
    destruct (Hfill x y Hline) as (q & Hq & Htaken);
      [by eapply cell_in_grid|]. congruence.
  - split; [done|]. by intros _.
Qed.

End DrawLineMore.

(** ** What [sandGravity] does inside the array *)

Lemma cell_moved_source points col row tcol trow c p :
  cell points row col = Some p → (row ≠ trow ∨ col ≠ tcol) →
  cell (moved points col row tcol trow c) row col =
    Some {| exists_ := -1; color := color p |}.
Proof.
  intros Hp Hne. unfold moved. rewrite cell_addNewPoint_ne by done.
  by rewrite cell_update_eq, Hp.
Qed.

Lemma cell_moved_target points col row tcol trow c p :
  in_grid row col = true →
  cell points trow tcol = Some p → (row ≠ trow ∨ col ≠ tcol) →
  cell (moved points col row tcol trow c) trow tcol =
    Some {| exists_ := 1; color := c |}.
Proof.
  intros Hin Hp Hne. unfold moved.
  eapply cell_addNewPoint_eq. rewrite cell_update_ne by (done || lia). done.
Qed.

Lemma cell_moved_other points col row tcol trow c row' col' :
  in_grid row col = true →
  (row' ≠ row ∨ col' ≠ col) → (row' ≠ trow ∨ col' ≠ tcol) →
  cell (moved points col row tcol trow c) row' col' = cell points row' col'.
Proof. intros. by apply move_keeps. Qed.

Lemma well_formed_moved points col row tcol trow c :
  well_formed points → well_formed (moved points col row tcol trow c).
Proof. intros. by apply well_formed_addNewPoint, well_formed_update. Qed.

(** What one iteration does when the three cells it tests are in the array. *)
Lemma sandGravity_body_inside points col row c p1 p2 p3 :
  in_grid row col = true →
  cell points row (col + 1) = Some p1 →
  cell points (row + 1) (col - 1) = Some p2 →
  cell points (row + 1) (col + 1) = Some p3 →
  sandGravity_body points col row c =
    if exists_ p1 =? 0 then Done (moved points col row (col + 1) row c, 1)
    else if exists_ p2 =? 0
         then Done (moved points col row (col - 1) (row + 1) c, 1)
         else if exists_ p3 =? 0
              then Done (moved points col row (col - 1) (row + 1) c, 1)
              else Done (points, 0).
Proof.
  intros Hin H1 H2 H3. apply load_Done in H1, H2, H3.
  unfold sandGravity_body, store, moved. rewrite H1, H2, H3, Hin. cbn [bind].
  by repeat case_match.
Qed.

(** X9.  When the cell to the right, the cell below-left and the cell
    below-right of [(col, row)] are in the array and none is free, one
    iteration ends the loop and [sandGravity] returns the array unchanged. *)
Theorem sandGravity_settled (points : Grid) (col row : Z) (fuel : nat)
    (p p1 p2 p3 : Point) :
  cell points row col = Some p →
  cell points row (col + 1) = Some p1 → exists_ p1 ≠ 0 →
  cell points (row + 1) (col - 1) = Some p2 → exists_ p2 ≠ 0 →
  cell points (row + 1) (col + 1) = Some p3 → exists_ p3 ≠ 0 →
  sandGravity (S fuel) points col row = Done points.
Proof.
  intros Hp H1 Ht1 H2 Ht2 H3 Ht3.
  unfold sandGravity. apply load_Done in Hp as Hl. rewrite Hl. cbn [bind].
  cbn [sandGravity_loop Z.eqb Pos.eqb].
  rewrite (sandGravity_body_inside points col row (color p) p1 p2 p3);
    [|by eapply cell_in_grid|done..].
  apply Z.eqb_neq in Ht1, Ht2, Ht3. rewrite Ht1, Ht2, Ht3.
  by destruct fuel.
Qed.

Lemma sandGravity_settled_witness :
  sandGravity 1 (grains [(1, 1); (2, 1); (0, 2); (2, 2)]) 1 1 =
    Done (grains [(1, 1); (2, 1); (0, 2); (2, 2)]).
Proof.
  apply (sandGravity_settled (grains [(1, 1); (2, 1); (0, 2); (2, 2)]) 1 1 0
           {| exists_ := 1; color := sand |} {| exists_ := 1; color := sand |}
           {| exists_ := 1; color := sand |} {| exists_ := 1; color := sand |});
    (vm_compute; reflexivity) || (simpl; lia).
Defined.

(** X10.  When the three tested cells are in the array and the cell
    below-right is not free, [sandGravity] returns within three iterations.
    It has put a grain of the source's colour in the right cell if that was
    free and in the below-left cell if that was free, has marked the source
    [exists = -1] if it put any, and has left every other cell alone. *)
Theorem sandGravity_returns (points : Grid) (col row : Z)
    (p p1 p2 p3 : Point) :
  cell points row col = Some p →
  cell points row (col + 1) = Some p1 →
  cell points (row + 1) (col - 1) = Some p2 →
  cell points (row + 1) (col + 1) = Some p3 → exists_ p3 ≠ 0 →
  ∃ points',
    (∀ fuel, sandGravity (3 + fuel) points col row = Done points') ∧
    cell points' row (col + 1) =
      Some (if exists_ p1 =? 0 then {| exists_ := 1; color := color p |}
            else p1) ∧
    cell points' (row + 1) (col - 1) =
      Some (if exists_ p2 =? 0 then {| exists_ := 1; color := color p |}
            else p2) ∧
    cell points' row col =
      Some (if (exists_ p1 =? 0) || (exists_ p2 =? 0)
            then {| exists_ := -1; color := color p |} else p) ∧
    ∀ row' col',
      (row' ≠ row ∨ col' ≠ col) → (row' ≠ row ∨ col' ≠ col + 1) →
      (row' ≠ row + 1 ∨ col' ≠ col - 1) →
      cell points' row' col' = cell points row' col'.
Proof.
  intros Hp H1 H2 H3 Ht3.
  pose proof (cell_in_grid _ _ _ _ Hp) as Hin.
  apply Z.eqb_neq in Ht3.
  set (c := color p).
  set (points1 := if exists_ p1 =? 0
                  then moved points col row (col + 1) row c else points).
  set (points2 := if exists_ p2 =? 0
                  then moved points1 col row (col - 1) (row + 1) c
                  else points1).
  (* the cells of interest after the first and the second move *)
  assert (H1src : cell points1 row col =
            Some (if exists_ p1 =? 0 then {| exists_ := -1; color := c |}
                  else p)).
  { subst points1. destruct (exists_ p1 =? 0); [|done].
    rewrite (cell_moved_source _ _ _ _ _ _ p) by (done || lia). done. }
  assert (H1r : cell points1 row (col + 1) =
            Some (if exists_ p1 =? 0 then {| exists_ := 1; color := c |}
                  else p1)).
  { subst points1. destruct (exists_ p1 =? 0); [|done].
    by rewrite (cell_moved_target _ _ _ _ _ _ p1) by (done || lia). }
  assert (H1dl : cell points1 (row + 1) (col - 1) = Some p2).
  { subst points1. destruct (exists_ p1 =? 0); [|done].
    by rewrite cell_moved_other by (done || lia). }
  assert (H1dr : cell points1 (row + 1) (col + 1) = Some p3).
  { subst points1. destruct (exists_ p1 =? 0); [|done].
    by rewrite cell_moved_other by (done || lia). }
  assert (H2src : cell points2 row col =
            Some (if (exists_ p1 =? 0) || (exists_ p2 =? 0)
                  then {| exists_ := -1; color := c |} else p)).
  { subst points2. destruct (exists_ p2 =? 0).
    - rewrite (cell_moved_source _ _ _ _ _ _ _ H1src) by lia.
      rewrite orb_true_r. by destruct (exists_ p1 =? 0).
    - by rewrite orb_false_r. }
  assert (H2r : cell points2 row (col + 1) =
            Some (if exists_ p1 =? 0 then {| exists_ := 1; color := c |}
                  else p1)).
  { subst points2. destruct (exists_ p2 =? 0); [|done].
    by rewrite cell_moved_other by (done || lia). }
  assert (H2dl : cell points2 (row + 1) (col - 1) =
            Some (if exists_ p2 =? 0 then {| exists_ := 1; color := c |}
                  else p2)).
  { subst points2. destruct (exists_ p2 =? 0) eqn:Hf2; [|done].
    by rewrite (cell_moved_target _ _ _ _ _ _ p2) by (done || lia). }
  assert (H2dr : cell points2 (row + 1) (col + 1) = Some p3).
  { subst points2. destruct (exists_ p2 =? 0); [|done].
    by rewrite cell_moved_other by (done || lia). }
  exists points2. split; [|split; [done|split; [done|split; [done|]]]].
  - intros fuel. apply sandGravity_more_fuel.
    unfold sandGravity. apply load_Done in Hp as Hl. rewrite Hl.
    cbn [bind]. fold c.
    (* first iteration *)
    cbn [sandGravity_loop Z.eqb Pos.eqb].
    rewrite (sandGravity_body_inside points col row c p1 p2 p3) by done.
    rewrite Ht3.
    (* the second and third run on [points1] and [points2] *)
    assert (Hstop : ∀ n, sandGravity_loop (S n) points2 col row c 1
                         = Done points2).
    { intros n. cbn [sandGravity_loop Z.eqb Pos.eqb].
      rewrite (sandGravity_body_inside points2 col row c _ _ _ Hin
                 H2r H2dl H2dr).
      rewrite Ht3.
      destruct (exists_ p1 =? 0) eqn:Hf1, (exists_ p2 =? 0) eqn:Hf2;
        cbn [exists_ Z.eqb]; rewrite ?Hf1, ?Hf2; by destruct n. }
    assert (Hsecond : ∀ n, sandGravity_loop (S (S n)) points1 col row c 1
                           = Done points2).
    { intros n. cbn [sandGravity_loop Z.eqb Pos.eqb].
      rewrite (sandGravity_body_inside points1 col row c _ _ _ Hin
                 H1r H1dl H1dr).
      rewrite Ht3. subst points2.
      destruct (exists_ p1 =? 0) eqn:Hf1, (exists_ p2 =? 0) eqn:Hf2;
        cbn [exists_ Z.eqb]; rewrite ?Hf1, ?Hf2.
      - apply Hstop.
      - by destruct n.
      - apply Hstop.
      - by destruct n. }
    subst points1.
    destruct (exists_ p1 =? 0) eqn:Hf1.
    + apply (Hsecond 0%nat).
    + subst points2. destruct (exists_ p2 =? 0) eqn:Hf2.
      * apply (Hstop 1%nat).
      * reflexivity.
  - intros row' col' Hsrc Hr Hdl. subst points2 points1.
    destruct (exists_ p1 =? 0), (exists_ p2 =? 0);
      rewrite ?cell_moved_other by (done || lia); done.
Qed.

Lemma settles_into_refl col row points : settles_into col row points points.
Proof. intros row' col' p Hp. eauto. Qed.

Lemma settles_into_trans col row points1 points2 points3 :
  settles_into col row points1 points2 →
  settles_into col row points2 points3 →
  settles_into col row points1 points3.
Proof.
  intros H12 H23 row' col' p Hp.
  destruct (H12 row' col' p Hp) as (p' & Hp' & Ht & Hs).
  destruct (H23 row' col' p' Hp') as (p'' & Hp'' & Ht' & Hs').
  exists p''. split; [done|]. split; [auto|].
  intros. rewrite Hs', Hs; auto.
Qed.

Lemma settles_into_moved points col row tcol trow c p :
  in_grid row col = true →
  cell points trow tcol = Some p →
  (trow = row ∧ tcol = col + 1) ∨ (trow = row + 1 ∧ tcol = col - 1) →
  settles_into col row points (moved points col row tcol trow c).
Proof.
  intros Hin Htgt Hwhich row' col' q Hq.
  destruct (decide (row' = row ∧ col' = col)) as [[-> ->]|Hsrc].
  - rewrite (cell_moved_source _ _ _ _ _ _ q) by (done || lia).
    eexists. split; [done|]. split; [done|]. lia.
  - destruct (decide (row' = trow ∧ col' = tcol)) as [[-> ->]|Htgt'].
    + rewrite (cell_moved_target _ _ _ _ _ _ p) by (done || lia).
      eexists. split; [done|]. split; [done|]. lia.
    + rewrite cell_moved_other by (done || lia). eauto.
Qed.

Lemma sandGravity_body_settles points col row c points' falling :
  sandGravity_body points col row c = Done (points', falling) →
  settles_into col row points points'.
Proof.
  unfold sandGravity_body, store. intros Hrun.
  destruct (load points row (col + 1)) as [p1| |] eqn:H1; [|done..].
  apply load_Done in H1. cbn [bind] in Hrun.
  destruct (exists_ p1 =? 0).
  { destruct (in_grid row col) eqn:Hin; [|done]. cbn [bind] in Hrun.
    injection Hrun as <- <-.
    apply (settles_into_moved _ _ _ _ _ _ p1); auto. }
  destruct (load points (row + 1) (col - 1)) as [p2| |] eqn:H2; [|done..].
  apply load_Done in H2. cbn [bind] in Hrun.
  destruct (exists_ p2 =? 0).
  { destruct (in_grid row col) eqn:Hin; [|done]. cbn [bind] in Hrun.
    injection Hrun as <- <-.
    apply (settles_into_moved _ _ _ _ _ _ p2); auto. }
  destruct (load points (row + 1) (col + 1)) as [p3| |] eqn:H3; [|done..].
  cbn [bind] in Hrun.
  destruct (exists_ p3 =? 0).
  { destruct (in_grid row col) eqn:Hin; [|done]. cbn [bind] in Hrun.
    injection Hrun as <- <-.
    apply (settles_into_moved _ _ _ _ _ _ p2); auto. }
  injection Hrun as <- <-. apply settles_into_refl.
Qed.

Lemma sandGravity_loop_settles fuel :
  ∀ points col row c falling points',
    sandGravity_loop fuel points col row c falling = Done points' →
    settles_into col row points points'.
Proof.
  induction fuel as [|fuel IH]; intros points col row c falling points' Hrun;
    cbn [sandGravity_loop] in Hrun; destruct (falling =? 1);
    try done; try (injection Hrun as <-; apply settles_into_refl).
  destruct (sandGravity_body points col row c) as [[points1 falling1]| |]
    eqn:Hbody; [|done..].
  eapply settles_into_trans.
  - by eapply sandGravity_body_settles.
  - by eapply IH.
Qed.

(** X11.  Whenever [sandGravity] returns, every cell of the array is still
    there, no cell that was not free has become free, and only the source,
    the cell to its right and the cell below-left of it can differ. *)
Theorem sandGravity_never_frees (fuel : nat) (points points' : Grid)
    (col row : Z) :
  sandGravity fuel points col row = Done points' →
  ∀ row' col' p,
    cell points row' col' = Some p →
    ∃ p', cell points' row' col' = Some p' ∧
      (exists_ p ≠ 0 → exists_ p' ≠ 0) ∧
      ((row' ≠ row ∨ col' ≠ col) → (row' ≠ row ∨ col' ≠ col + 1) →
       (row' ≠ row + 1 ∨ col' ≠ col - 1) → p' = p).
Proof.
  unfold sandGravity. intros Hrun.
  destruct (load points row col) as [p0| |]; [|done..]. cbn [bind] in Hrun.
  by apply sandGravity_loop_settles in Hrun.
Qed.

(** ** Where [sandGravity] leaves the array *)

Lemma sandGravity_loop_inside fuel :
  ∀ points col row c falling r' c',
    well_formed points →
    1 ≤ col < COLS - 1 → 0 ≤ row < ROWS - 1 →
    sandGravity_loop fuel points col row c falling ≠ OutOfRange r' c'.
Proof.
  induction fuel as [|fuel IH]; intros points col row c falling r' c'
    Hwf Hcol Hrow; cbn [sandGravity_loop]; destruct (falling =? 1); try done.
  destruct (well_formed_cell points row (col + 1) Hwf) as [p1 H1];
    [apply in_grid_true; lia|].
  destruct (well_formed_cell points (row + 1) (col - 1) Hwf) as [p2 H2];
    [apply in_grid_true; lia|].
  destruct (well_formed_cell points (row + 1) (col + 1) Hwf) as [p3 H3];
    [apply in_grid_true; lia|].
  rewrite (sandGravity_body_inside points col row c p1 p2 p3);
    [|apply in_grid_true; lia|done..].
  destruct (exists_ p1 =? 0); [|destruct (exists_ p2 =? 0);
    [|destruct (exists_ p3 =? 0)]];
    apply IH; auto using well_formed_moved.
Qed.

Lemma sandGravity_border points col row c fuel :
  well_formed points → in_grid row col = true →
  col < COLS - 1 → col = 0 ∨ row = ROWS - 1 →
  sandGravity_loop (S (S fuel)) points col row c 1 =
    OutOfRange (row + 1) (col - 1).
Proof.
  intros Hwf Hin Hcol Hborder. pose proof Hin as Hin'.
  apply in_grid_true in Hin'.
  destruct (well_formed_cell points row (col + 1) Hwf) as [p1 H1];
    [apply in_grid_true; lia|].
  assert (Hout : in_grid (row + 1) (col - 1) = false).
  { apply in_grid_false. lia. }
  assert (Hbody : ∀ points1 q,
            cell points1 row (col + 1) = Some q → exists_ q ≠ 0 →
            sandGravity_body points1 col row c
              = OutOfRange (row + 1) (col - 1)).
  { intros points1 q Hq Htaken. apply load_Done in Hq.
    unfold sandGravity_body. rewrite Hq. cbn [bind].
    apply Z.eqb_neq in Htaken. rewrite Htaken.
    by rewrite (load_outside _ _ _ Hout). }
  cbn [sandGravity_loop Z.eqb Pos.eqb].
  destruct (exists_ p1 =? 0) eqn:Hfree.
  - apply load_Done in H1 as Hl1.
    unfold sandGravity_body at 1, store. rewrite Hl1, Hin. cbn [bind].
    rewrite Hfree. fold (moved points col row (col + 1) row c).
    rewrite (Hbody _ {| exists_ := 1; color := c |}); [done| |done].
    by rewrite (cell_moved_target _ _ _ _ _ _ p1) by (done || lia).
  - rewrite (Hbody points p1); [done|done|]. by apply Z.eqb_neq.
Qed.

(** X12.  On a cell of the array, given fuel for two iterations,
    [sandGravity] reads outside the array exactly when the cell is in the
    leftmost column, in the rightmost column or on the bottom row. *)
Theorem sandGravity_fault_iff (points : Grid) (col row : Z) (fuel : nat) :
  well_formed points → in_grid row col = true → (2 ≤ fuel)%nat →
  (∃ r' c', sandGravity fuel points col row = OutOfRange r' c') ↔
  col = 0 ∨ col = COLS - 1 ∨ row = ROWS - 1.
Proof.
  intros Hwf Hin Hfuel. pose proof Hin as Hin'. apply in_grid_true in Hin'.
  destruct (load_well_formed points row col Hwf Hin) as (p & Hp & Hl).
  unfold sandGravity. rewrite Hl. cbn [bind]. split.
  - intros (r' & c' & Hfault).
    destruct (decide (1 ≤ col < COLS - 1 ∧ 0 ≤ row < ROWS - 1))
      as [[Hcol Hrow]|Hborder]; [|lia].
    by apply sandGravity_loop_inside in Hfault.
  - intros Hborder.
    destruct fuel as [|[|fuel]]; [lia..|].
    destruct (decide (col = COLS - 1)) as [->|Hcol].
    + exists row, COLS. cbn [sandGravity_loop Z.eqb Pos.eqb].
      unfold sandGravity_body.
      replace (COLS - 1 + 1) with COLS by lia.
      rewrite load_outside; [done|]. apply in_grid_false. lia.
    + exists (row + 1), (col - 1). apply sandGravity_border; auto; lia.
Qed.

Lemma sandGravity_fault_iff_witness :
  (∃ r' c', sandGravity 5 (grains [(0, 3)]) 0 3 = OutOfRange r' c') ↔
  0 = 0 ∨ 0 = COLS - 1 ∨ 3 = ROWS - 1.
Proof.
  apply (sandGravity_fault_iff (grains [(0, 3)]) 0 3 5).
  - apply well_formed_addNewPoint, well_formed_init_grid.
  - reflexivity.
  - lia.
Defined.



(** ** What [drawAllPoints] emits *)

Lemma list_bind_bind {A B C : Type} (f : A → list B) (h : B → list C)
    (l : list A) :
  (l ≫= f) ≫= h = l ≫= (λ a, f a ≫= h).
Proof.
  induction l as [|a l IH]; [done|].
  by rewrite !bind_cons, bind_app, IH.
Qed.

Section Present.

Variable draw_status : Z → Z → Z.

Lemma for_each_bind {A : Type} (body : A → outcome (list action))
    (f : A → list action) (l : list A) :
  Forall (λ a, body a = Done (f a)) l →
  for_each body l = Done (l ≫= f).
Proof.
  induction 1 as [|a l Ha _ IH]; [done|].
  cbn [for_each]. rewrite Ha, IH. cbn [bind]. by rewrite bind_cons.
Qed.

Lemma drawAllPoints_emits (points : Grid) :
  well_formed points →
  drawAllPoints draw_status points =
    Done ([SDL_SetRenderDrawColor 0 0 0 255; SDL_RenderClear]
          ++ (occupied_cells points ≫= draw_cell draw_status points)
          ++ [SDL_RenderPresent]).
Proof.
  intros Hwf. unfold drawAllPoints, occupied_cells.
  rewrite (for_each_bind _
             (λ row, seqZ 0 COLS ≫= λ col,
                match cell points row col with
                | Some p => if exists_ p =? 1 then [(col, row)] else []
                | None => []
                end ≫= draw_cell draw_status points)).
  - cbn [bind]. do 3 f_equal. rewrite list_bind_bind.
    apply Forall_bind_ext, Forall_forall. intros row _.
    by rewrite list_bind_bind.
  - apply Forall_forall. intros row Hrow. apply elem_of_seqZ in Hrow.
    apply for_each_bind, Forall_forall. intros col Hcol.
    apply elem_of_seqZ in Hcol.
    destruct (load_well_formed points row col Hwf) as (p & Hp & Hl);
      [apply in_grid_true; lia|].
    unfold drawPoint. rewrite Hl, Hp. cbn [bind].
    destruct (exists_ p =? 1); [|done].
    rewrite bind_singleton. unfold draw_cell. by rewrite Hp.
Qed.

(** X13.  [drawAllPoints] sets the colour to black, clears, then for each
    cell with [exists == 1], row by row and left to right, sets that cell's
    colour and draws the point, reporting a failed draw with [printf] and
    [SDL_Quit] and going on with the next cell, and finally presents. *)
Theorem drawAllPoints_output (points : Grid) :
  well_formed points →
  drawAllPoints draw_status points =
    Done ([SDL_SetRenderDrawColor 0 0 0 255; SDL_RenderClear]
          ++ (occupied_cells points ≫= draw_cell draw_status points)
          ++ [SDL_RenderPresent]).
Proof. apply drawAllPoints_emits. Qed.

End Present.

Lemma drawAllPoints_output_witness :
  drawAllPoints (λ _ _, 1) (grains [(3, 2)]) =
    Done ([SDL_SetRenderDrawColor 0 0 0 255; SDL_RenderClear]
          ++ (occupied_cells (grains [(3, 2)])
                ≫= draw_cell (λ _ _, 1) (grains [(3, 2)]))
          ++ [SDL_RenderPresent]).
Proof.
  apply (drawAllPoints_output (λ _ _, 1) (grains [(3, 2)])).
  apply well_formed_addNewPoint, well_formed_init_grid.
Defined.

(** ** The loop of [main], frame after frame *)

Section MainLoop.

Variable rand_values : nat → Z.
Variable draw_status : Z → Z → Z.

Lemma grows_refl points : grows points points.
Proof. intros row col p Hp. by left. Qed.

Lemma grows_trans points1 points2 points3 :
  grows points1 points2 → grows points2 points3 → grows points1 points3.
Proof.
  intros H12 H23 row col p Hp.
  destruct (H12 row col p Hp) as [Hsame|[c Hc]]; [by apply H23|].
  destruct (H23 row col _ Hc) as [?|?]; eauto.
Qed.

Lemma paints_only_grows cells before after :
  paints_only cells before after → grows before after.
Proof.
  intros Hp row col p Hc. destruct (Hp row col p Hc) as [?|(_ & _ & ?)]; eauto.
Qed.

Lemma grows_addNewPoint points col row c :
  grows points (snd (addNewPoint points col row c)).
Proof.
  intros row' col' p Hp.
  destruct (decide (row' = row ∧ col' = col)) as [[-> ->]|Hne].
  - right. exists c. by eapply cell_addNewPoint_eq.
  - left. by rewrite cell_addNewPoint_ne by lia.
Qed.

Lemma drawLine_loop_grows fuel :
  ∀ points seed dx dy sx sy x2 y2 x y err points' seed',
    well_formed points →
    drawLine_loop rand_values fuel points seed dx dy sx sy x2 y2 x y err
      = Done (points', seed') →
    well_formed points' ∧ grows points points'.
Proof.
  induction fuel as [|fuel IH];
    intros points seed dx dy sx sy x2 y2 x y err points' seed' Hwf Hrun;
    [done|].
  cbn [drawLine_loop] in Hrun.
  destruct (drawLine_plot_paints rand_values points seed x y Hwf)
    as (points1 & seed1 & Hplot & Hwf1 & Hp1).
  rewrite Hplot in Hrun. apply paints_only_grows in Hp1.
  destruct ((x =? x2) && (y =? y2)); [by injection Hrun as <- <-|].
  destruct (drawLine_advance dx dy sx sy x y err) as [[x' y'] err'].
  destruct (IH _ _ _ _ _ _ _ _ _ _ _ _ _ Hwf1 Hrun) as [Hwf' Hg].
  split; [done|]. by eapply grows_trans.
Qed.

Lemma seed_handle_events events st :
  seed (fold_left handle_event events st) = seed st.
Proof.
  revert st. induction events as [|e events IH]; intros st; [done|].
  cbn [fold_left]. rewrite IH. by destruct e.
Qed.

Lemma paint_grows fuel mouse st st' out :
  well_formed (points st) →
  paint rand_values fuel mouse st = Done (st', out) →
  well_formed (points st') ∧ grows (points st) (points st') ∧
  quit st' = quit st.
Proof.
  intros Hwf. unfold paint.
  destruct (mouseHeld st);
    [|intros [= <- <-]; auto using grows_refl].
  destruct ((prevX st >=? 0) && (prevY st >=? 0)).
  - destruct (drawLine _ _ _ _ _ _ _ _) as [[points' seed']| |] eqn:Hrun;
      [|done..].
    cbn [bind]. intros [= <- <-]. cbn [points quit].
    unfold drawLine in Hrun. apply drawLine_loop_grows in Hrun; [|done].
    destruct Hrun. auto.
  - destruct (varyColor rand_values (seed st)) as [c seed'].
    destruct (addNewPoint (points st) _ _ c) as [result points'] eqn:Hadd.
    cbn [bind]. intros [= <- <-]. cbn [points quit].
    assert (Hpoints : points' = snd (addNewPoint (points st)
              (Z.quot (fst mouse) SCALING_FACTOR)
              (Z.quot (snd mouse) SCALING_FACTOR) c)) by by rewrite Hadd.
    rewrite Hpoints.
    auto using well_formed_addNewPoint, grows_addNewPoint.
Qed.

Lemma frame_grows fuel events mouse st st' out :
  well_formed (points st) →
  frame rand_values draw_status fuel events mouse st = Done (st', out) →
  well_formed (points st') ∧ grows (points st) (points st') ∧
  quit st' = quit (fold_left handle_event events st).
Proof.
  intros Hwf. unfold frame.
  destruct (paint _ _ _ _) as [[st1 painted]| |] eqn:Hpaint; [|done..].
  cbn [bind].
  destruct (drawAllPoints draw_status (points st1)) as [drawn| |]; [|done..].
  cbn [bind]. intros [= <- <-].
  apply paint_grows in Hpaint; [|by rewrite points_handle_events].
  by rewrite points_handle_events in Hpaint.
Qed.

(** X17.  However many iterations the loop of [main] runs, the array keeps
    its shape and every cell holds what it held at the start or a grain: no
    grain is ever removed or moved. *)
Theorem main_loop_keeps_grains (fuel : nat)
    (inputs : list (list event * (Z * Z))) (st st' : Loop)
    (out : list action) :
  well_formed (points st) →
  main_loop rand_values draw_status fuel inputs st = Done (st', out) →
  well_formed (points st') ∧
  ∀ row col p,
    cell (points st) row col = Some p →
    cell (points st') row col = Some p ∨
    ∃ c, cell (points st') row col = Some {| exists_ := 1; color := c |}.
Proof.
  revert st st' out.
  induction inputs as [|[events mouse] inputs IH]; intros st st' out Hwf Hrun;
    cbn [main_loop] in Hrun.
  { injection Hrun as <- <-. split; [done|]. apply grows_refl. }
  destruct (quit st =? 0).
  - destruct (frame _ _ _ _ _ _) as [[st1 out1]| |] eqn:Hframe; [|done..].
    destruct (main_loop rand_values draw_status fuel inputs st1) as [[st2 out2]| |] eqn:Hrest;
      [|done..].
    injection Hrun as <- <-.
    apply frame_grows in Hframe as (Hwf1 & Hg1 & _); [|done].
    destruct (IH st1 st2 out2 Hwf1 Hrest) as [Hwf2 Hg2].
    split; [done|]. by apply (grows_trans _ (points st1)).
  - injection Hrun as <- <-. split; [done|]. apply grows_refl.
Qed.

Lemma quit_sticky events st :
  quit st = 1 → quit (fold_left handle_event events st) = 1.
Proof.
  revert st. induction events as [|e events IH]; intros st Hq; [done|].
  cbn [fold_left]. apply IH. by destruct e.
Qed.

Lemma quit_handle_events events st :
  SDL_QUIT ∈ events → quit (fold_left handle_event events st) = 1.
Proof.
  revert st. induction events as [|e events IH]; intros st Hin.
  - by apply elem_of_nil in Hin.
  - cbn [fold_left]. apply elem_of_cons in Hin as [<-|Hin].
    + by apply quit_sticky.
    + by apply IH.
Qed.

Lemma quit_handle_events_none events st :
  SDL_QUIT ∉ events → quit (fold_left handle_event events st) = quit st.
Proof.
  revert st. induction events as [|e events IH]; intros st Hin; [done|].
  cbn [fold_left]. apply not_elem_of_cons in Hin as [Hne Hin].
  rewrite IH by done. by destruct e.
Qed.

Lemma main_loop_quit_frame fuel events mouse rest st :
  well_formed (points st) → SDL_QUIT ∈ events →
  main_loop rand_values draw_status fuel ((events, mouse) :: rest) st =
    main_loop rand_values draw_status fuel [(events, mouse)] st.
Proof.
  intros Hwf Hin. cbn [main_loop]. destruct (quit st =? 0); [|done].
  destruct (frame _ _ _ _ _ _) as [[st1 out1]| |] eqn:Hframe; [|done..].
  apply frame_grows in Hframe as (_ & _ & Hq1); [|done].
  rewrite quit_handle_events in Hq1 by done.
  destruct rest as [|[events' mouse'] rest]; cbn [main_loop]; [done|].
  by rewrite Hq1.
Qed.

(** ** Strokes *)

(** X14.  With the button held and no previous cell, a pointer at a
    non-negative position paints exactly the cell under it when the position
    is inside the window, and otherwise logs the out-of-bounds message and
    leaves the array alone; in both cases three values of [rand()] are used
    and the cell becomes the previous cell. *)
Theorem paint_stroke_start (fuel : nat) (px py : Z) (st : Loop) :
  mouseHeld st = true → prevX st < 0 ∨ prevY st < 0 →
  0 ≤ px → 0 ≤ py →
  ∃ st' out,
    paint rand_values fuel (px, py) st = Done (st', out) ∧
    prevX st' = Z.quot px SCALING_FACTOR ∧
    prevY st' = Z.quot py SCALING_FACTOR ∧
    seed st' = (seed st + 3)%nat ∧
    (px < WIDTH ∧ py < HEIGHT →
     out = [SDL_GetMouseState px py] ∧
     points st' =
       snd (addNewPoint (points st) (Z.quot px SCALING_FACTOR)
              (Z.quot py SCALING_FACTOR)
              (fst (varyColor rand_values (seed st)))) ∧
     in_grid (Z.quot py SCALING_FACTOR) (Z.quot px SCALING_FACTOR) = true) ∧
    (WIDTH ≤ px ∨ HEIGHT ≤ py →
     out = [SDL_GetMouseState px py;
            printf "Mouse coordinates out of bounds: (%d, %d)"
                   [Z.quot px SCALING_FACTOR; Z.quot py SCALING_FACTOR]] ∧
     points st' = points st).
Proof.
  intros Hheld Hprev Hpx Hpy. unfold paint. rewrite Hheld. cbn [fst snd].
  assert (Hnew : (prevX st >=? 0) && (prevY st >=? 0) = false).
  { apply andb_false_iff. lia. }
  rewrite Hnew.
  destruct (varyColor rand_values (seed st)) as [c seed'] eqn:Hcolor.
  assert (Hseed : seed' = (seed st + 3)%nat).
  { unfold varyColor, rand in Hcolor. injection Hcolor as _ <-. lia. }
  assert (Hqx : 0 ≤ Z.quot px SCALING_FACTOR) by (apply Z.quot_pos; done).
  assert (Hqy : 0 ≤ Z.quot py SCALING_FACTOR) by (apply Z.quot_pos; done).
  assert (Hcell : in_grid (Z.quot py SCALING_FACTOR)
                    (Z.quot px SCALING_FACTOR) = true
                  ↔ px < WIDTH ∧ py < HEIGHT).
  { rewrite in_grid_true, COLS_eq, ROWS_eq.
    change SCALING_FACTOR with 10 in *. change WIDTH with 640.
    change HEIGHT with 480.
    pose proof (Z.quot_lt_upper_bound px 10 64).
    pose proof (Z.quot_lt_upper_bound py 10 48).
    pose proof (Z.quot_le_mono 640 px 10).
    pose proof (Z.quot_le_mono 480 py 10).
    change (640 ÷ 10) with 64 in *. change (480 ÷ 10) with 48 in *. lia. }
  destruct (in_grid (Z.quot py SCALING_FACTOR) (Z.quot px SCALING_FACTOR))
    eqn:Hin.
  - rewrite addNewPoint_in by done. cbn [bind negb Z.eqb fst snd].
    eexists _, _. split; [done|]. cbn [prevX prevY seed points].
    split; [done|]. split; [done|]. split; [done|]. split.
    + intros _. by rewrite addNewPoint_in.
    + intros Hout. assert (px < WIDTH ∧ py < HEIGHT) by by apply Hcell. lia.
  - rewrite addNewPoint_out by done. cbn [bind negb Z.eqb fst snd].
    eexists _, _. split; [done|]. cbn [prevX prevY seed points].
    split; [done|]. split; [done|]. split; [done|]. split; [|done].
    intros Hinside. apply Hcell in Hinside. done.
Qed.

(** X15.  With the button held and a previous cell, painting runs
    [drawLine] from the previous cell to the cell under the pointer: no cell
    of the array on that line is free afterwards, cells that were not free
    keep their content, and the cell under the pointer becomes the previous
    cell. *)
Theorem paint_held_stroke (fuel : nat) (px py : Z) (st : Loop) :
  well_formed (points st) →
  mouseHeld st = true → 0 ≤ prevX st → 0 ≤ prevY st →
  Z.abs (Z.quot px SCALING_FACTOR - prevX st)
    + Z.abs (Z.quot py SCALING_FACTOR - prevY st) < Z.of_nat fuel →
  ∃ st',
    paint rand_values fuel (px, py) st =
      Done (st', [SDL_GetMouseState px py]) ∧
    prevX st' = Z.quot px SCALING_FACTOR ∧
    prevY st' = Z.quot py SCALING_FACTOR ∧
    well_formed (points st') ∧
    (∀ x y,
       (x, y) ∈ bresenham (prevX st) (prevY st)
                  (Z.quot px SCALING_FACTOR) (Z.quot py SCALING_FACTOR) →
       in_grid y x = true →
       ∃ p, cell (points st') y x = Some p ∧ exists_ p ≠ 0) ∧
    (∀ row col p,
       cell (points st) row col = Some p → exists_ p ≠ 0 →
       cell (points st') row col = Some p).
Proof.
  intros Hwf Hheld Hx Hy Hfuel. unfold paint. rewrite Hheld. cbn [fst snd].
  assert (Hline : (prevX st >=? 0) && (prevY st >=? 0) = true).
  { apply andb_true_iff. lia. }
  rewrite Hline.
  destruct (drawLine_fills rand_values (points st) (seed st) fuel
              (prevX st) (prevY st) (Z.quot px SCALING_FACTOR)
              (Z.quot py SCALING_FACTOR) Hwf Hfuel)
    as (points' & seed' & Hrun & Hfill).
  destruct (drawLine_returns rand_values (points st) (seed st) fuel
              (prevX st) (prevY st) (Z.quot px SCALING_FACTOR)
              (Z.quot py SCALING_FACTOR) Hwf Hfuel)
    as (points2 & seed2 & Hrun2 & Hwf' & Hkeep).
  rewrite Hrun in Hrun2. injection Hrun2 as <- <-.
  rewrite Hrun. cbn [bind]. eexists. split; [done|]. cbn [prevX prevY points].
  split; [done|]. split; [done|]. split; [done|]. split; [done|].
  intros row col p Hc Htaken.
  destruct (Hkeep row col p Hc) as [?|(? & _)]; done.
Qed.

(** X16.  A frame whose events end with a release followed by a press
    paints the single cell under the pointer, wherever the previous stroke
    ended: no line is drawn from the old stroke. *)
Theorem frame_release_then_press (fuel : nat) (before : list event)
    (mouse : Z * Z) (st : Loop) :
  well_formed (points st) →
  ∃ st' out,
    frame rand_values draw_status fuel
          (before ++ [SDL_MOUSEBUTTONUP; SDL_MOUSEBUTTONDOWN]) mouse st
      = Done (st', out) ∧
    points st' =
      snd (addNewPoint (points st) (Z.quot (fst mouse) SCALING_FACTOR)
             (Z.quot (snd mouse) SCALING_FACTOR)
             (fst (varyColor rand_values (seed st)))) ∧
    mouseHeld st' = true ∧
    prevX st' = Z.quot (fst mouse) SCALING_FACTOR ∧
    prevY st' = Z.quot (snd mouse) SCALING_FACTOR.
Proof.
  intros Hwf. unfold frame. rewrite fold_left_app. cbn [fold_left handle_event].
  rewrite points_handle_events, seed_handle_events.
  unfold paint. cbn [mouseHeld prevX prevY points seed andb Z.geb Z.compare].
  destruct (varyColor rand_values (seed st)) as [c seed'].
  destruct (addNewPoint (points st) _ _ c) as [result points'] eqn:Hadd.
  cbn [bind fst].
  assert (Hpoints : points' = snd (addNewPoint (points st)
            (Z.quot (fst mouse) SCALING_FACTOR)
            (Z.quot (snd mouse) SCALING_FACTOR) c)) by by rewrite Hadd.
  destruct (drawAllPoints_calls draw_status points') as (drawn & Hdraw & _).
  { rewrite Hpoints. by apply well_formed_addNewPoint. }
  cbn [points]. rewrite Hdraw. cbn [bind]. eexists _, _. split; [done|].
  cbn [points mouseHeld prevX prevY]. done.
Qed.

End MainLoop.



Lemma sandGravity_returns_witness :
  ∃ points',
    (∀ fuel, sandGravity (3 + fuel) (grains [(1, 1); (2, 2)]) 1 1
               = Done points') ∧
    cell points' 1 (1 + 1) =
      Some (if exists_ {| exists_ := 0; color := black |} =? 0
            then {| exists_ := 1;
                    color := color {| exists_ := 1; color := sand |} |}
            else {| exists_ := 0; color := black |}) ∧
    cell points' (1 + 1) (1 - 1) =
      Some (if exists_ {| exists_ := 0; color := black |} =? 0
            then {| exists_ := 1;
                    color := color {| exists_ := 1; color := sand |} |}
            else {| exists_ := 0; color := black |}) ∧
    cell points' 1 1 =
      Some (if (exists_ {| exists_ := 0; color := black |} =? 0)
               || (exists_ {| exists_ := 0; color := black |} =? 0)
            then {| exists_ := -1;
                    color := color {| exists_ := 1; color := sand |} |}
            else {| exists_ := 1; color := sand |}) ∧
    ∀ row' col',
      (row' ≠ 1 ∨ col' ≠ 1) → (row' ≠ 1 ∨ col' ≠ 1 + 1) →
      (row' ≠ 1 + 1 ∨ col' ≠ 1 - 1) →
      cell points' row' col' = cell (grains [(1, 1); (2, 2)]) row' col'.
Proof.
  apply (sandGravity_returns (grains [(1, 1); (2, 2)]) 1 1
           {| exists_ := 1; color := sand |}
           {| exists_ := 0; color := black |}
           {| exists_ := 0; color := black |}
           {| exists_ := 1; color := sand |});
    (vm_compute; reflexivity) || (simpl; lia).
Defined.

Lemma sandGravity_never_frees_witness :
  ∃ p',
    cell (moved (moved (grains [(1, 1); (2, 2)]) 1 1 2 1 sand) 1 1 0 2 sand)
         1 1 = Some p' ∧
    (exists_ {| exists_ := 1; color := sand |} ≠ 0 → exists_ p' ≠ 0) ∧
    ((1 ≠ 1 ∨ 1 ≠ 1) → (1 ≠ 1 ∨ 1 ≠ 1 + 1) →
     (1 ≠ 1 + 1 ∨ 1 ≠ 1 - 1) → p' = {| exists_ := 1; color := sand |}).
Proof.
  apply (sandGravity_never_frees 3 (grains [(1, 1); (2, 2)])
           (moved (moved (grains [(1, 1); (2, 2)]) 1 1 2 1 sand) 1 1 0 2 sand)
           1 1).
  - vm_compute. reflexivity.
  - vm_compute. reflexivity.
Defined.

Lemma main_loop_keeps_grains_witness :
  well_formed (snd (addNewPoint (grains [(3, 2)]) 7 2
                      {| r := 200; g := 171; b := 62 |})) ∧
  ∀ row col p,
    cell (grains [(3, 2)]) row col = Some p →
    cell (snd (addNewPoint (grains [(3, 2)]) 7 2
                 {| r := 200; g := 171; b := 62 |})) row col = Some p ∨
    ∃ c, cell (snd (addNewPoint (grains [(3, 2)]) 7 2
                      {| r := 200; g := 171; b := 62 |})) row col
         = Some {| exists_ := 1; color := c |}.
Proof.
  apply (main_loop_keeps_grains (λ n, Z.of_nat n) (λ _ _, 0) 1
           [([SDL_MOUSEBUTTONDOWN], (75, 27));
            ([SDL_MOUSEBUTTONUP; SDL_QUIT], (0, 0))]
           (idle (grains [(3, 2)]))
           {| points := snd (addNewPoint (grains [(3, 2)]) 7 2
                               {| r := 200; g := 171; b := 62 |});
              quit := 1; mouseHeld := false; prevX := -1; prevY := -1;
              seed := 3 |}
           (match main_loop (λ n, Z.of_nat n) (λ _ _, 0) 1
                    [([SDL_MOUSEBUTTONDOWN], (75, 27));
                     ([SDL_MOUSEBUTTONUP; SDL_QUIT], (0, 0))]
                    (idle (grains [(3, 2)])) with
            | Done (_, out) => out
            | _ => []
            end)).
  - apply well_formed_addNewPoint, well_formed_init_grid.
  - vm_compute. reflexivity.
Defined.

Lemma paint_stroke_start_witness :
  ∃ st' out,
    paint (λ n, Z.of_nat n) 1 (35, 27)
          (fold_left handle_event [SDL_MOUSEBUTTONDOWN] (idle (grains [])))
      = Done (st', out) ∧
    prevX st' = Z.quot 35 SCALING_FACTOR ∧
    prevY st' = Z.quot 27 SCALING_FACTOR ∧
    seed st' = (0 + 3)%nat ∧
    (35 < WIDTH ∧ 27 < HEIGHT →
     out = [SDL_GetMouseState 35 27] ∧
     points st' =
       snd (addNewPoint (grains []) (Z.quot 35 SCALING_FACTOR)
              (Z.quot 27 SCALING_FACTOR)
              (fst (varyColor (λ n, Z.of_nat n) 0))) ∧
     in_grid (Z.quot 27 SCALING_FACTOR) (Z.quot 35 SCALING_FACTOR) = true) ∧
    (WIDTH ≤ 35 ∨ HEIGHT ≤ 27 →
     out = [SDL_GetMouseState 35 27;
            printf "Mouse coordinates out of bounds: (%d, %d)"
                   [Z.quot 35 SCALING_FACTOR; Z.quot 27 SCALING_FACTOR]] ∧
     points st' = grains []).
Proof.
  apply (paint_stroke_start (λ n, Z.of_nat n) 1 35 27
           (fold_left handle_event [SDL_MOUSEBUTTONDOWN] (idle (grains []))));
    (reflexivity || (simpl; lia)).
Defined.

Lemma paint_held_stroke_witness :
  ∃ st',
    paint (λ n, Z.of_nat n) 9 (75, 47)
          {| points := grains [(3, 2)]; quit := 0; mouseHeld := true;
             prevX := 3; prevY := 2; seed := 3 |}
      = Done (st', [SDL_GetMouseState 75 47]) ∧
    prevX st' = Z.quot 75 SCALING_FACTOR ∧
    prevY st' = Z.quot 47 SCALING_FACTOR ∧
    well_formed (points st') ∧
    (∀ x y,
       (x, y) ∈ bresenham 3 2 (Z.quot 75 SCALING_FACTOR)
                  (Z.quot 47 SCALING_FACTOR) →
       in_grid y x = true →
       ∃ p, cell (points st') y x = Some p ∧ exists_ p ≠ 0) ∧
    (∀ row col p,
       cell (grains [(3, 2)]) row col = Some p → exists_ p ≠ 0 →
       cell (points st') row col = Some p).
Proof.
  apply (paint_held_stroke (λ n, Z.of_nat n) 9 75 47
           {| points := grains [(3, 2)]; quit := 0; mouseHeld := true;
              prevX := 3; prevY := 2; seed := 3 |}).
  - apply well_formed_addNewPoint, well_formed_init_grid.
  - reflexivity.
  - simpl. lia.
  - simpl. lia.
  - vm_compute. reflexivity.
Defined.

Lemma frame_release_then_press_witness :
  ∃ st' out,
    frame (λ n, Z.of_nat n) (λ _ _, 0) 0
          ([] ++ [SDL_MOUSEBUTTONUP; SDL_MOUSEBUTTONDOWN]) (75, 47)
          {| points := grains [(3, 2)]; quit := 0; mouseHeld := true;
             prevX := 3; prevY := 2; seed := 3 |}
      = Done (st', out) ∧
    points st' =
      snd (addNewPoint (grains [(3, 2)]) (Z.quot 75 SCALING_FACTOR)
             (Z.quot 47 SCALING_FACTOR)
             (fst (varyColor (λ n, Z.of_nat n) 3))) ∧
    mouseHeld st' = true ∧
    prevX st' = Z.quot 75 SCALING_FACTOR ∧
    prevY st' = Z.quot 47 SCALING_FACTOR.
Proof.
  apply (frame_release_then_press (λ n, Z.of_nat n) (λ _ _, 0) 0 [] (75, 47)
           {| points := grains [(3, 2)]; quit := 0; mouseHeld := true;
              prevX := 3; prevY := 2; seed := 3 |}).
  apply well_formed_addNewPoint, well_formed_init_grid.
Defined.

(** ** Which cells are drawn *)


Lemma elem_of_occupied_cells points col row :
  (col, row) ∈ occupied_cells points ↔
  ∃ p, cell points row col = Some p ∧ exists_ p = 1.
Proof.
  unfold occupied_cells. rewrite list_elem_of_bind. split.
  - intros (row0 & Hin & _). apply list_elem_of_bind in Hin as (col0 & Hin & _).
    destruct (cell points row0 col0) as [p|] eqn:Hp;
      [|by apply elem_of_nil in Hin].
    destruct (exists_ p =? 1) eqn:Hshown; [|by apply elem_of_nil in Hin].
    apply list_elem_of_singleton in Hin. injection Hin as -> ->.
    exists p. split; [done|]. lia.
  - intros (p & Hp & Hshown).
    pose proof (cell_in_grid _ _ _ _ Hp) as Hin. apply in_grid_true in Hin.
    exists row. split; [|apply elem_of_seqZ; lia].
    apply list_elem_of_bind. exists col. split; [|apply elem_of_seqZ; lia].
    rewrite Hp, Hshown. apply list_elem_of_here.
Qed.

(** X19.  [drawAllPoints] asks for a point to be drawn at a cell exactly
    when the cell is in the array with [exists == 1]; a cell that
    [sandGravity] has marked -1 is not drawn. *)
Theorem drawAllPoints_draws_iff (draw_status : Z → Z → Z) (points : Grid)
    (out : list action) (col row : Z) :
  well_formed points →
  drawAllPoints draw_status points = Done out →
  SDL_RenderDrawPoint col row ∈ out ↔
  ∃ p, cell points row col = Some p ∧ exists_ p = 1.
Proof.
  intros Hwf Hrun.
  destruct (drawAllPoints_calls draw_status points Hwf)
    as (out' & Hrun' & Hcalls).
  rewrite Hrun in Hrun'. injection Hrun' as <-.
  rewrite <- elem_of_occupied_cells, <- Hcalls. unfold draw_calls.
  rewrite list_elem_of_omap. split.
  - intros Hin. by exists (SDL_RenderDrawPoint col row).
  - intros (a & Hin & Ha). destruct a; try done. by injection Ha as -> ->.
Qed.

Lemma drawAllPoints_draws_iff_witness :
  SDL_RenderDrawPoint 3 2 ∈
    [SDL_SetRenderDrawColor 0 0 0 255; SDL_RenderClear;
     SDL_SetRenderDrawColor 210 180 65 255; SDL_RenderDrawPoint 3 2;
     SDL_RenderPresent] ↔
  ∃ p, cell (grains [(3, 2)]) 2 3 = Some p ∧ exists_ p = 1.
Proof.
  apply (drawAllPoints_draws_iff (λ _ _, 0) (grains [(3, 2)])).
  - apply well_formed_addNewPoint, well_formed_init_grid.
  - vm_compute. reflexivity.
Defined.

(** ** [drawLine] in [int] arithmetic *)

Lemma wrap_int_exact v : - 2 ^ 31 ≤ v < 2 ^ 31 → wrap_int v = v.
Proof. intros Hv. unfold wrap_int. rewrite Z.mod_small; lia. Qed.

Example wrap_int_max : wrap_int (2 ^ 31) = - 2 ^ 31.
Proof. reflexivity. Qed.

(** Beyond [2 ^ 30] the first doubling of the error term wraps and the walk
    leaves the line: from (5,5) towards (1500000005,5) it steps to (5,4). *)
Example drawLine_advance_int_wraps :
  drawLine_advance_int 1500000000 0 1 (-1) 5 5 1500000000
    = (5, 4, -1294967296) ∧
  drawLine_advance 1500000000 0 1 (-1) 5 5 1500000000 = (6, 5, 1500000000) ∧
  line_cells_int 3 1500000000 0 1 (-1) 1500000005 5 5 5 1500000000
    = [(5, 5); (5, 4); (6, 4)].
Proof. repeat split. Qed.

Lemma steady_bound dx dy err :
  0 ≤ dx → 0 ≤ dy → steady dx dy err →
  - 3 * (dx `max` dy) < 2 * err < 3 * (dx `max` dy).
Proof. unfold steady. lia. Qed.

Lemma drawLine_advance_int_exact x1 y1 x2 y2 x y err i j :
  within_reach x1 y1 x2 y2 →
  on_track x1 y1 x2 y2 x y err i j →
  steady (Z.abs (x2 - x1)) (Z.abs (y2 - y1)) err →
  drawLine_advance_int (Z.abs (x2 - x1)) (Z.abs (y2 - y1))
    (if x1 <? x2 then 1 else -1) (if y1 <? y2 then 1 else -1) x y err =
  drawLine_advance (Z.abs (x2 - x1)) (Z.abs (y2 - y1))
    (if x1 <? x2 then 1 else -1) (if y1 <? y2 then 1 else -1) x y err.
Proof.
  intros (H1 & H2 & H3 & H4) Ht Hs. unfold reach in *.
  pose proof (steady_bound _ _ _ (Z.abs_nonneg (x2 - x1))
                (Z.abs_nonneg (y2 - y1)) Hs) as Herr.
  unfold on_track in Ht. destruct Ht as (Hi & Hj & Hx & Hy & _).
  set (dx := Z.abs (x2 - x1)) in *. set (dy := Z.abs (y2 - y1)) in *.
  assert (Hdx : 0 ≤ dx ≤ 2 ^ 29) by (subst dx; lia).
  assert (Hdy : 0 ≤ dy ≤ 2 ^ 29) by (subst dy; lia).
  assert (Hxr : Z.abs x ≤ 2 ^ 28).
  { subst dx. destruct (x1 <? x2) eqn:Hsx; lia. }
  assert (Hyr : Z.abs y ≤ 2 ^ 28).
  { subst dy. destruct (y1 <? y2) eqn:Hsy; lia. }
  unfold drawLine_advance_int, drawLine_advance.
  rewrite (wrap_int_exact (2 * err)), (wrap_int_exact (- dy)) by lia.
  rewrite (wrap_int_exact (err - dy)) by lia.
  rewrite (wrap_int_exact (x + _)) by (destruct (x1 <? x2); lia).
  destruct (2 * err >? - dy); destruct (2 * err <? dx); try done;
    rewrite (wrap_int_exact (_ + dx)) by lia;
    rewrite (wrap_int_exact (y + _)) by (destruct (y1 <? y2); lia); done.
Qed.

Lemma within_reach_sides x1 y1 x2 y2 :
  within_reach x1 y1 x2 y2 →
  wrap_int (Z.abs (wrap_int (x2 - x1))) = Z.abs (x2 - x1) ∧
  wrap_int (Z.abs (wrap_int (y2 - y1))) = Z.abs (y2 - y1) ∧
  wrap_int (Z.abs (x2 - x1) - Z.abs (y2 - y1)) =
    Z.abs (x2 - x1) - Z.abs (y2 - y1).
Proof.
  intros (H1 & H2 & H3 & H4). unfold reach in *.
  rewrite (wrap_int_exact (x2 - x1)), (wrap_int_exact (y2 - y1)) by lia.
  rewrite !wrap_int_exact by lia. done.
Qed.

Lemma line_cells_int_exact x1 y1 x2 y2 fuel :
  within_reach x1 y1 x2 y2 →
  ∀ x y err i j,
    on_track x1 y1 x2 y2 x y err i j →
    steady (Z.abs (x2 - x1)) (Z.abs (y2 - y1)) err ∨ (x = x2 ∧ y = y2) →
    line_cells_int fuel (Z.abs (x2 - x1)) (Z.abs (y2 - y1))
      (if x1 <? x2 then 1 else -1) (if y1 <? y2 then 1 else -1)
      x2 y2 x y err =
    line_cells fuel (Z.abs (x2 - x1)) (Z.abs (y2 - y1))
      (if x1 <? x2 then 1 else -1) (if y1 <? y2 then 1 else -1)
      x2 y2 x y err.
Proof.
  intros Hreach.
  induction fuel as [|fuel IH]; intros x y err i j Ht Hs; [done|].
  cbn [line_cells_int line_cells]. f_equal.
  destruct ((x =? x2) && (y =? y2)) eqn:Hend; [done|].
  assert (Hne : ¬ (x = x2 ∧ y = y2)).
  { rewrite andb_false_iff in Hend. lia. }
  destruct Hs as [Hs|?]; [|done].
  rewrite (drawLine_advance_int_exact _ _ _ _ _ _ _ _ _ Hreach Ht Hs).
  destruct (on_track_advance_major _ _ _ _ _ _ _ _ _ Ht Hs Hne)
    as (i' & j' & Hnext & _).
  destruct (drawLine_advance _ _ _ _ x y err) as [[x' y'] err'].
  destruct Hnext as [Ht' Hs']. apply (IH x' y' err' i' j'); auto.
Qed.

Lemma start_steady x1 y1 x2 y2 :
  steady (Z.abs (x2 - x1)) (Z.abs (y2 - y1))
         (Z.abs (x2 - x1) - Z.abs (y2 - y1)) ∨ (x1 = x2 ∧ y1 = y2).
Proof.
  destruct (decide (x1 = x2 ∧ y1 = y2)) as [?|Hne]; [by right|left].
  apply steady_start; lia.
Qed.

(** Within [reach] the walk in [int] arithmetic is the walk in exact
    arithmetic. *)
Lemma bresenham_int_exact x1 y1 x2 y2 :
  within_reach x1 y1 x2 y2 →
  bresenham_int x1 y1 x2 y2 = bresenham x1 y1 x2 y2.
Proof.
  intros Hreach. unfold bresenham_int, bresenham.
  destruct (within_reach_sides _ _ _ _ Hreach) as (-> & -> & ->).
  apply (line_cells_int_exact _ _ _ _ _ Hreach _ _ _ 0 0).
  - apply on_track_start.
  - apply start_steady.
Qed.

Section IntExact.

Variable rand_values : nat → Z.

Lemma drawLine_loop_int_exact x1 y1 x2 y2 fuel :
  within_reach x1 y1 x2 y2 →
  ∀ points seed x y err i j,
    on_track x1 y1 x2 y2 x y err i j →
    steady (Z.abs (x2 - x1)) (Z.abs (y2 - y1)) err ∨ (x = x2 ∧ y = y2) →
    drawLine_loop_int rand_values fuel points seed
      (Z.abs (x2 - x1)) (Z.abs (y2 - y1))
      (if x1 <? x2 then 1 else -1) (if y1 <? y2 then 1 else -1)
      x2 y2 x y err =
    drawLine_loop rand_values fuel points seed
      (Z.abs (x2 - x1)) (Z.abs (y2 - y1))
      (if x1 <? x2 then 1 else -1) (if y1 <? y2 then 1 else -1)
      x2 y2 x y err.
Proof.
  intros Hreach.
  induction fuel as [|fuel IH]; intros points seed x y err i j Ht Hs; [done|].
  cbn [drawLine_loop_int drawLine_loop].
  destruct (drawLine_plot rand_values points seed x y)
    as [[points1 seed1]| |]; [|done..].
  destruct ((x =? x2) && (y =? y2)) eqn:Hend; [done|].
  assert (Hne : ¬ (x = x2 ∧ y = y2)).
  { rewrite andb_false_iff in Hend. lia. }
  destruct Hs as [Hs|?]; [|done].
  rewrite (drawLine_advance_int_exact _ _ _ _ _ _ _ _ _ Hreach Ht Hs).
  destruct (on_track_advance_major _ _ _ _ _ _ _ _ _ Ht Hs Hne)
    as (i' & j' & Hnext & _).
  destruct (drawLine_advance _ _ _ _ x y err) as [[x' y'] err'].
  destruct Hnext as [Ht' Hs']. apply (IH points1 seed1 x' y' err' i' j'); auto.
Qed.

(** Within [reach], which every cell [main] can pass is, [drawLine] in [int]
    arithmetic is [drawLine] in exact arithmetic, whatever the fuel. *)
Lemma drawLine_int_exact fuel points seed x1 y1 x2 y2 :
  within_reach x1 y1 x2 y2 →
  drawLine_int rand_values fuel points seed x1 y1 x2 y2 =
  drawLine rand_values fuel points seed x1 y1 x2 y2.
Proof.
  intros Hreach. unfold drawLine_int, drawLine.
  destruct (within_reach_sides _ _ _ _ Hreach) as (-> & -> & ->).
  apply (drawLine_loop_int_exact _ _ _ _ _ Hreach _ _ _ _ _ 0 0).
  - apply on_track_start.
  - apply start_steady.
Qed.

(** C10.  For endpoints within [reach], given enough fuel for the loop to
    reach its [break], [drawLine] in [int] arithmetic returns an array of
    the same shape in which
    - every cell that was not free ([exists != 0]) holds the [exists] and the
      colour it held;
    - every cell that is not on the line walked between the endpoints holds
      what it held;
    - a cell whose content differs was free, is inside the array, is on that
      line, hence inside the rectangle spanned by the endpoints, and now holds
      a grain. *)
Theorem drawLine_paints_only (points : Grid) (seed fuel : nat)
    (x1 y1 x2 y2 : Z) :
  well_formed points →
  within_reach x1 y1 x2 y2 →
  Z.abs (x2 - x1) + Z.abs (y2 - y1) < Z.of_nat fuel →
  ∃ points' seed',
    drawLine_int rand_values fuel points seed x1 y1 x2 y2
      = Done (points', seed') ∧
    well_formed points' ∧
    (∀ row col p,
       cell points row col = Some p → exists_ p ≠ 0 →
       cell points' row col = Some p) ∧
    (∀ row col,
       (col, row) ∉ bresenham_int x1 y1 x2 y2 →
       cell points' row col = cell points row col) ∧
    (∀ row col p,
       cell points row col = Some p → cell points' row col ≠ Some p →
       exists_ p = 0 ∧ in_grid row col = true ∧
       (col, row) ∈ bresenham_int x1 y1 x2 y2 ∧
       (x1 `min` x2 ≤ col ≤ x1 `max` x2) ∧
       (y1 `min` y2 ≤ row ≤ y1 `max` y2) ∧
       ∃ c, cell points' row col = Some {| exists_ := 1; color := c |}).
Proof.
  intros Hwf Hreach Hfuel.
  rewrite drawLine_int_exact, bresenham_int_exact by done.
  by apply drawLine_paints_only_Z.
Qed.

(** X7.  For endpoints within [reach], after [drawLine] in [int] arithmetic
    every cell of the array on the walked line that was free holds a grain,
    and every one that was not free holds what it held: no cell of the line
    inside the array is left free. *)
Theorem drawLine_fills_line (points : Grid) (seed fuel : nat)
    (x1 y1 x2 y2 : Z) :
  well_formed points →
  within_reach x1 y1 x2 y2 →
  Z.abs (x2 - x1) + Z.abs (y2 - y1) < Z.of_nat fuel →
  ∃ points' seed',
    drawLine_int rand_values fuel points seed x1 y1 x2 y2
      = Done (points', seed') ∧
    ∀ x y p,
      (x, y) ∈ bresenham_int x1 y1 x2 y2 → cell points y x = Some p →
      (exists_ p ≠ 0 → cell points' y x = Some p) ∧
      (exists_ p = 0 →
       ∃ c, cell points' y x = Some {| exists_ := 1; color := c |}).
Proof.
  intros Hwf Hreach Hfuel.
  rewrite drawLine_int_exact, bresenham_int_exact by done.
  by apply drawLine_fills_line_Z.
Qed.

(** X8.  For endpoints within [reach], when the rectangle they span lies
    wholly left of, right of, above or below the array, [drawLine] in [int]
    arithmetic returns the array it was given and calls [rand()] not once. *)
Theorem drawLine_outside_grid (points : Grid) (seed fuel : nat)
    (x1 y1 x2 y2 : Z) :
  within_reach x1 y1 x2 y2 →
  x1 `max` x2 < 0 ∨ COLS ≤ x1 `min` x2 ∨
  y1 `max` y2 < 0 ∨ ROWS ≤ y1 `min` y2 →
  Z.abs (x2 - x1) + Z.abs (y2 - y1) < Z.of_nat fuel →
  drawLine_int rand_values fuel points seed x1 y1 x2 y2 = Done (points, seed).
Proof.
  intros Hreach Hout Hfuel. rewrite drawLine_int_exact by done.
  by apply drawLine_outside_grid_Z.
Qed.

End IntExact.

Lemma within_reach_small x1 y1 x2 y2 :
  Z.abs x1 ≤ 1000 → Z.abs y1 ≤ 1000 → Z.abs x2 ≤ 1000 → Z.abs y2 ≤ 1000 →
  within_reach x1 y1 x2 y2.
Proof. unfold within_reach, reach. lia. Qed.

Lemma drawLine_paints_only_witness :
  ∃ points' seed',
    drawLine_int (λ n, Z.of_nat n) 9 (grains [(2, 1)]) 0 0 0 4 3 =
      Done (points', seed') ∧
    well_formed points' ∧
    (∀ row col p,
       cell (grains [(2, 1)]) row col = Some p → exists_ p ≠ 0 →
       cell points' row col = Some p) ∧
    (∀ row col,
       (col, row) ∉ bresenham_int 0 0 4 3 →
       cell points' row col = cell (grains [(2, 1)]) row col) ∧
    (∀ row col p,
       cell (grains [(2, 1)]) row col = Some p →
       cell points' row col ≠ Some p →
       exists_ p = 0 ∧ in_grid row col = true ∧
       (col, row) ∈ bresenham_int 0 0 4 3 ∧
       (0 `min` 4 ≤ col ≤ 0 `max` 4) ∧
       (0 `min` 3 ≤ row ≤ 0 `max` 3) ∧
       ∃ c, cell points' row col = Some {| exists_ := 1; color := c |}).
Proof.
  apply (drawLine_paints_only (λ n, Z.of_nat n) (grains [(2, 1)]) 0 9 0 0 4 3).
  - apply well_formed_addNewPoint, well_formed_init_grid.
  - apply within_reach_small; simpl; lia.
  - simpl. lia.
Defined.

Lemma drawLine_fills_line_witness :
  ∃ points' seed',
    drawLine_int (λ n, Z.of_nat n) 9 (grains [(2, 1)]) 0 0 0 4 3 =
      Done (points', seed') ∧
    ∀ x y p,
      (x, y) ∈ bresenham_int 0 0 4 3 → cell (grains [(2, 1)]) y x = Some p →
      (exists_ p ≠ 0 → cell points' y x = Some p) ∧
      (exists_ p = 0 →
       ∃ c, cell points' y x = Some {| exists_ := 1; color := c |}).
Proof.
  apply (drawLine_fills_line (λ n, Z.of_nat n) (grains [(2, 1)]) 0 9 0 0 4 3).
  - apply well_formed_addNewPoint, well_formed_init_grid.
  - apply within_reach_small; simpl; lia.
  - simpl. lia.
Defined.

Lemma drawLine_outside_grid_witness :
  drawLine_int (λ n, Z.of_nat n) 20 (grains [(2, 1)]) 0 70 3 66 12 =
    Done (grains [(2, 1)], 0%nat).
Proof.
  apply (drawLine_outside_grid (λ n, Z.of_nat n) (grains [(2, 1)]) 0 20
           70 3 66 12).
  - apply within_reach_small; simpl; lia.
  - right. left. rewrite COLS_eq. lia.
  - simpl. lia.
Defined.

(** X4.  For endpoints within [reach], the walk of [drawLine] in [int]
    arithmetic begins at the first endpoint and ends at the second. *)
Theorem bresenham_endpoints (x1 y1 x2 y2 : Z) :
  within_reach x1 y1 x2 y2 →
  head (bresenham_int x1 y1 x2 y2) = Some (x1, y1) ∧
  last (bresenham_int x1 y1 x2 y2) = Some (x2, y2).
Proof.
  intros Hreach. rewrite bresenham_int_exact by done.
  split; [apply bresenham_first|apply bresenham_last].
Qed.

Lemma bresenham_endpoints_witness :
  head (bresenham_int 3 2 1 7) = Some (3, 2) ∧
  last (bresenham_int 3 2 1 7) = Some (1, 7).
Proof.
  apply (bresenham_endpoints 3 2 1 7).
  apply within_reach_small; simpl; lia.
Defined.

(** X5.  For endpoints within [reach], two cells visited one after the other
    by the loop of [drawLine] in [int] arithmetic are different and touch by
    a side or a corner: the walk skips no cell. *)
Theorem bresenham_adjacent (x1 y1 x2 y2 : Z) (k : nat) (a b : Z * Z) :
  within_reach x1 y1 x2 y2 →
  bresenham_int x1 y1 x2 y2 !! k = Some a →
  bresenham_int x1 y1 x2 y2 !! S k = Some b →
  adjacent a b.
Proof.
  intros Hreach. rewrite bresenham_int_exact by done.
  apply bresenham_adjacent_Z.
Qed.

Lemma bresenham_adjacent_witness : adjacent (2, 4) (2, 5).
Proof.
  apply (bresenham_adjacent 3 2 1 7 2 (2, 4) (2, 5));
    [apply within_reach_small; simpl; lia|reflexivity..].
Defined.

(** X6.  For endpoints within [reach], the loop of [drawLine] in [int]
    arithmetic visits [max(|x2 - x1|, |y2 - y1|) + 1] cells: every iteration
    steps along the longer side of the rectangle. *)
Theorem bresenham_length (x1 y1 x2 y2 : Z) :
  within_reach x1 y1 x2 y2 →
  Z.of_nat (length (bresenham_int x1 y1 x2 y2)) =
    Z.abs (x2 - x1) `max` Z.abs (y2 - y1) + 1.
Proof.
  intros Hreach. rewrite bresenham_int_exact by done.
  apply bresenham_length_Z.
Qed.

Lemma bresenham_length_witness :
  Z.of_nat (length (bresenham_int 3 2 1 7)) =
    Z.abs (1 - 3) `max` Z.abs (7 - 2) + 1.
Proof.
  apply (bresenham_length 3 2 1 7).
  apply within_reach_small; simpl; lia.
Defined.

(** Every cell [main] passes to [drawLine] is a pointer position, an [int],
    divided by the scaling factor, and so within [reach]. *)
Lemma pointer_cells_within_reach px py qx qy :
  - 2 ^ 31 ≤ px < 2 ^ 31 → - 2 ^ 31 ≤ py < 2 ^ 31 →
  - 2 ^ 31 ≤ qx < 2 ^ 31 → - 2 ^ 31 ≤ qy < 2 ^ 31 →
  within_reach (Z.quot px SCALING_FACTOR) (Z.quot py SCALING_FACTOR)
               (Z.quot qx SCALING_FACTOR) (Z.quot qy SCALING_FACTOR).
Proof.
  intros Hpx Hpy Hqx Hqy. unfold within_reach, reach.
  change SCALING_FACTOR with 10.
  assert (Hq : ∀ v, - 2 ^ 31 ≤ v < 2 ^ 31 → Z.abs (v ÷ 10) ≤ 2 ^ 28).
  { intros v Hv.
    pose proof (Z.quot_le_mono v (2 ^ 31) 10).
    pose proof (Z.quot_le_mono (- 2 ^ 31) v 10).
    change (2 ^ 31 ÷ 10) with 214748364 in *.
    change (- 2 ^ 31 ÷ 10) with (-214748364) in *. lia. }
  auto.
Qed.

(** ** One iteration of the loop of [main], in full *)

Section FrameInFull.

Variable rand_values : nat → Z.
Variable draw_status : Z → Z → Z.

(** What the painting step (lines 208-226) leaves. *)
Lemma paint_returns mouse st :
  well_formed (points st) →
  ∃ fuel0, ∀ fuel, (fuel0 ≤ fuel)%nat →
    ∃ st' painted,
      paint rand_values fuel mouse st = Done (st', painted) ∧
      well_formed (points st') ∧ grows (points st) (points st') ∧
      quit st' = quit st ∧
      (mouseHeld st = false → st' = st ∧ painted = []) ∧
      (mouseHeld st = true →
       (∃ log, painted = SDL_GetMouseState (fst mouse) (snd mouse) :: log) ∧
       prevX st' = Z.quot (fst mouse) SCALING_FACTOR ∧
       prevY st' = Z.quot (snd mouse) SCALING_FACTOR ∧
       ∀ p, cell (points st) (Z.quot (snd mouse) SCALING_FACTOR)
                 (Z.quot (fst mouse) SCALING_FACTOR) = Some p →
            ∃ p', cell (points st') (Z.quot (snd mouse) SCALING_FACTOR)
                       (Z.quot (fst mouse) SCALING_FACTOR) = Some p' ∧
                  exists_ p' ≠ 0).
Proof.
  intros Hwf.
  exists (S (Z.to_nat
    (Z.abs (Z.quot (fst mouse) SCALING_FACTOR - prevX st) +
     Z.abs (Z.quot (snd mouse) SCALING_FACTOR - prevY st)))).
  intros fuel Hfuel.
  destruct (paint rand_values fuel mouse st) as [[st' painted]| |] eqn:Hrun.
  - (* what holds of every result *)
    destruct (paint_grows rand_values fuel mouse st st' painted Hwf Hrun)
      as (Hwf' & Hgrows & Hquit).
    exists st', painted. split; [done|]. split; [done|]. split; [done|].
    split; [done|]. unfold paint in Hrun. split.
    + intros Hup. rewrite Hup in Hrun. by injection Hrun as <- <-.
    + intros Hheld. rewrite Hheld in Hrun.
      destruct ((prevX st >=? 0) && (prevY st >=? 0)).
      * destruct (drawLine_fills rand_values (points st) (seed st) fuel
                    (prevX st) (prevY st)
                    (Z.quot (fst mouse) SCALING_FACTOR)
                    (Z.quot (snd mouse) SCALING_FACTOR) Hwf)
          as (points' & seed' & Hline & Hfill); [lia|].
        rewrite Hline in Hrun. cbn [bind] in Hrun. injection Hrun as <- <-.
        cbn [points prevX prevY]. split; [by eexists|].
        split; [done|]. split; [done|]. intros p Hp. apply Hfill.
        -- eapply last_Some_elem_of, bresenham_last.
        -- by eapply cell_in_grid.
      * destruct (varyColor rand_values (seed st)) as [c seed'].
        destruct (addNewPoint (points st) _ _ c) as [result points'] eqn:Hadd.
        cbn [bind] in Hrun. injection Hrun as <- <-.
        cbn [points prevX prevY]. split; [by eexists|].
        split; [done|]. split; [done|]. intros p Hp.
        assert (Hpoints : points' = snd (addNewPoint (points st)
                  (Z.quot (fst mouse) SCALING_FACTOR)
                  (Z.quot (snd mouse) SCALING_FACTOR) c)) by by rewrite Hadd.
        rewrite Hpoints. eexists. split; [by eapply cell_addNewPoint_eq|done].
  - exfalso. revert Hrun. unfold paint.
    destruct (mouseHeld st); [|done].
    destruct ((prevX st >=? 0) && (prevY st >=? 0)).
    + destruct (drawLine_returns rand_values (points st) (seed st) fuel
                  (prevX st) (prevY st)
                  (Z.quot (fst mouse) SCALING_FACTOR)
                  (Z.quot (snd mouse) SCALING_FACTOR) Hwf)
        as (points' & seed' & -> & _); [lia|]. done.
    + destruct (varyColor rand_values (seed st)) as [c seed'].
      by destruct (addNewPoint (points st) _ _ c).
  - exfalso. revert Hrun. unfold paint.
    destruct (mouseHeld st); [|done].
    destruct ((prevX st >=? 0) && (prevY st >=? 0)).
    + destruct (drawLine_returns rand_values (points st) (seed st) fuel
                  (prevX st) (prevY st)
                  (Z.quot (fst mouse) SCALING_FACTOR)
                  (Z.quot (snd mouse) SCALING_FACTOR) Hwf)
        as (points' & seed' & -> & _); [lia|]. done.
    + destruct (varyColor rand_values (seed st)) as [c seed'].
      by destruct (addNewPoint (points st) _ _ c).
Qed.

(** The whole of one iteration. *)
Lemma frame_returns events mouse st :
  well_formed (points st) →
  ∃ fuel0, ∀ fuel, (fuel0 ≤ fuel)%nat →
    ∃ st' painted,
      frame rand_values draw_status fuel events mouse st =
        Done (st',
              (SDL_PollEvent <$> events) ++ painted
              ++ [SDL_SetRenderDrawColor 0 0 0 255; SDL_RenderClear]
              ++ (occupied_cells (points st')
                    ≫= draw_cell draw_status (points st'))
              ++ [SDL_RenderPresent; SDL_Delay 16]) ∧
      paint rand_values fuel mouse (fold_left handle_event events st)
        = Done (st', painted) ∧
      quit st' = quit (fold_left handle_event events st) ∧
      (mouseHeld (fold_left handle_event events st) = false →
       st' = fold_left handle_event events st ∧
       points st' = points st ∧ painted = []) ∧
      (mouseHeld (fold_left handle_event events st) = true →
       (∃ log, painted = SDL_GetMouseState (fst mouse) (snd mouse) :: log) ∧
       prevX st' = Z.quot (fst mouse) SCALING_FACTOR ∧
       prevY st' = Z.quot (snd mouse) SCALING_FACTOR ∧
       ∀ p, cell (points st) (Z.quot (snd mouse) SCALING_FACTOR)
                 (Z.quot (fst mouse) SCALING_FACTOR) = Some p →
            ∃ p', cell (points st') (Z.quot (snd mouse) SCALING_FACTOR)
                       (Z.quot (fst mouse) SCALING_FACTOR) = Some p' ∧
                  exists_ p' ≠ 0) ∧
      ∀ row col p,
        cell (points st) row col = Some p →
        cell (points st') row col = Some p ∨
        ∃ c, cell (points st') row col = Some {| exists_ := 1; color := c |}.
Proof.
  intros Hwf.
  destruct (paint_returns mouse (fold_left handle_event events st))
    as (fuel0 & Hpaint); [by rewrite points_handle_events|].
  exists fuel0. intros fuel Hfuel.
  destruct (Hpaint fuel Hfuel)
    as (st' & painted & Hrun & Hwf' & Hgrows & Hquit & Hup & Hheld).
  rewrite points_handle_events in Hgrows, Hheld.
  exists st', painted. unfold frame. rewrite Hrun. cbn [bind].
  rewrite (drawAllPoints_emits draw_status (points st') Hwf'). cbn [bind].
  split; [by rewrite <- !app_assoc|]. split; [done|]. split; [done|].
  split; [|done]. intros Hnot. destruct (Hup Hnot) as [-> ->].
  by rewrite points_handle_events.
Qed.

(** C2 (the source falls short of it).  One iteration of the loop handles the
    pending events, paints if the button is held, calls [drawAllPoints] on
    the array as painting left it, ending with [SDL_RenderPresent], and
    waits.  [sandGravity] is not called: with the button up the array is
    handed back as it was, whatever grains lie above free cells; with the
    button held the cell under the pointer is not free afterwards; and in
    every case each cell holds what it held or a grain. *)
Theorem frame_applies_no_gravity (events : list event) (mouse : Z * Z)
    (st : Loop) :
  well_formed (points st) →
  ∃ fuel0, ∀ fuel, (fuel0 ≤ fuel)%nat →
    ∃ st' painted,
      frame rand_values draw_status fuel events mouse st =
        Done (st',
              (SDL_PollEvent <$> events) ++ painted
              ++ [SDL_SetRenderDrawColor 0 0 0 255; SDL_RenderClear]
              ++ (occupied_cells (points st')
                    ≫= draw_cell draw_status (points st'))
              ++ [SDL_RenderPresent; SDL_Delay 16]) ∧
      (mouseHeld (fold_left handle_event events st) = false →
       st' = fold_left handle_event events st ∧
       points st' = points st ∧ painted = []) ∧
      (mouseHeld (fold_left handle_event events st) = true →
       (∃ log, painted = SDL_GetMouseState (fst mouse) (snd mouse) :: log) ∧
       prevX st' = Z.quot (fst mouse) SCALING_FACTOR ∧
       prevY st' = Z.quot (snd mouse) SCALING_FACTOR ∧
       ∀ p, cell (points st) (Z.quot (snd mouse) SCALING_FACTOR)
                 (Z.quot (fst mouse) SCALING_FACTOR) = Some p →
            ∃ p', cell (points st') (Z.quot (snd mouse) SCALING_FACTOR)
                       (Z.quot (fst mouse) SCALING_FACTOR) = Some p' ∧
                  exists_ p' ≠ 0) ∧
      ∀ row col p,
        cell (points st) row col = Some p →
        cell (points st') row col = Some p ∨
        ∃ c, cell (points st') row col = Some {| exists_ := 1; color := c |}.
Proof.
  intros Hwf. destruct (frame_returns events mouse st Hwf) as (fuel0 & Hrun).
  exists fuel0. intros fuel Hfuel.
  destruct (Hrun fuel Hfuel) as (st' & painted & ? & _ & _ & ? & ? & ?).
  by exists st', painted.
Qed.

(** X18.  When an iteration's events include [SDL_QUIT], the loop carries
    that iteration out in full, events, painting, drawing, present and wait,
    leaves [quit] at 1 and runs no further iteration: the input of later
    iterations has no effect, wherever in the run the iteration comes. *)
Theorem main_loop_stops_at_quit (events : list event) (mouse : Z * Z)
    (before rest : list (list event * (Z * Z))) (st : Loop) :
  well_formed (points st) → SDL_QUIT ∈ events →
  (∀ fuel,
     main_loop rand_values draw_status fuel
               (before ++ (events, mouse) :: rest) st =
     main_loop rand_values draw_status fuel
               (before ++ [(events, mouse)]) st) ∧
  (quit st = 0 →
   ∃ fuel0, ∀ fuel, (fuel0 ≤ fuel)%nat →
     ∃ st' painted,
       paint rand_values fuel mouse (fold_left handle_event events st)
         = Done (st', painted) ∧
       quit st' = 1 ∧
       main_loop rand_values draw_status fuel ((events, mouse) :: rest) st =
         Done (st',
               (SDL_PollEvent <$> events) ++ painted
               ++ [SDL_SetRenderDrawColor 0 0 0 255; SDL_RenderClear]
               ++ (occupied_cells (points st')
                     ≫= draw_cell draw_status (points st'))
               ++ [SDL_RenderPresent; SDL_Delay 16])).
Proof.
  intros Hwf Hin. split.
  - intros fuel. revert st Hwf.
    induction before as [|[events0 mouse0] before IH]; intros st Hwf.
    + by apply main_loop_quit_frame.
    + cbn [app main_loop]. destruct (quit st =? 0); [|done].
      destruct (frame _ _ _ _ _ _) as [[st1 out1]| |] eqn:Hframe; [|done..].
      apply frame_grows in Hframe as (Hwf1 & _); [|done].
      by rewrite IH.
  - intros Hq.
    destruct (frame_returns events mouse st Hwf) as (fuel0 & Hrun).
    exists fuel0. intros fuel Hfuel.
    destruct (Hrun fuel Hfuel) as (st' & painted & Hframe & Hpaint & Hquit & _).
    rewrite quit_handle_events in Hquit by done.
    exists st', painted. split; [done|]. split; [done|].
    cbn [main_loop]. rewrite Hq. cbn [Z.eqb]. rewrite Hframe.
    destruct rest as [|[events' mouse'] rest]; cbn [main_loop].
    + by rewrite app_nil_r.
    + rewrite Hquit. cbn [Z.eqb Pos.eqb]. by rewrite app_nil_r.
Qed.

End FrameInFull.

Lemma frame_applies_no_gravity_witness :
  ∃ fuel0, ∀ fuel, (fuel0 ≤ fuel)%nat →
    ∃ st' painted,
      frame (λ _, 0) (λ _ _, 0) fuel [] (0, 0) (idle (grains [(1, 1)])) =
        Done (st',
              (SDL_PollEvent <$> []) ++ painted
              ++ [SDL_SetRenderDrawColor 0 0 0 255; SDL_RenderClear]
              ++ (occupied_cells (points st')
                    ≫= draw_cell (λ _ _, 0) (points st'))
              ++ [SDL_RenderPresent; SDL_Delay 16]) ∧
      (mouseHeld (fold_left handle_event [] (idle (grains [(1, 1)])))
         = false →
       st' = fold_left handle_event [] (idle (grains [(1, 1)])) ∧
       points st' = points (idle (grains [(1, 1)])) ∧ painted = []) ∧
      (mouseHeld (fold_left handle_event [] (idle (grains [(1, 1)])))
         = true →
       (∃ log, painted = SDL_GetMouseState (fst (0, 0)) (snd (0, 0)) :: log) ∧
       prevX st' = Z.quot (fst (0, 0)) SCALING_FACTOR ∧
       prevY st' = Z.quot (snd (0, 0)) SCALING_FACTOR ∧
       ∀ p, cell (points (idle (grains [(1, 1)])))
                 (Z.quot (snd (0, 0)) SCALING_FACTOR)
                 (Z.quot (fst (0, 0)) SCALING_FACTOR) = Some p →
            ∃ p', cell (points st') (Z.quot (snd (0, 0)) SCALING_FACTOR)
                       (Z.quot (fst (0, 0)) SCALING_FACTOR) = Some p' ∧
                  exists_ p' ≠ 0) ∧
      ∀ row col p,
        cell (points (idle (grains [(1, 1)]))) row col = Some p →
        cell (points st') row col = Some p ∨
        ∃ c, cell (points st') row col = Some {| exists_ := 1; color := c |}.
Proof.
  apply (frame_applies_no_gravity (λ _, 0) (λ _ _, 0) [] (0, 0)
           (idle (grains [(1, 1)]))).
  apply well_formed_addNewPoint, well_formed_init_grid.
Defined.

(** On that state the grain at (1,1) has a free cell below it and a free
    cell to its right; the iteration draws it where it was. *)
Example frame_leaves_lone_grain (fuel : nat) :
  frame (λ _, 0) (λ _ _, 0) fuel [] (0, 0) (idle (grains [(1, 1)])) =
    Done (idle (grains [(1, 1)]),
          [SDL_SetRenderDrawColor 0 0 0 255; SDL_RenderClear;
           SDL_SetRenderDrawColor 210 180 65 255; SDL_RenderDrawPoint 1 1;
           SDL_RenderPresent; SDL_Delay 16]) ∧
  cell (grains [(1, 1)]) 2 1 = Some {| exists_ := 0; color := black |} ∧
  cell (grains [(1, 1)]) 1 2 = Some {| exists_ := 0; color := black |}.
Proof.
  unfold frame. cbn [fold_left paint idle mouseHeld bind points].
  split; [|split]; vm_compute; reflexivity.
Qed.

Lemma main_loop_stops_at_quit_witness :
  (∀ fuel,
     main_loop (λ n, Z.of_nat n) (λ _ _, 0) fuel
       ([([SDL_MOUSEBUTTONDOWN], (75, 27))]
          ++ ([SDL_MOUSEBUTTONUP; SDL_QUIT], (0, 0))
          :: [([SDL_MOUSEBUTTONDOWN], (15, 7))])
       (idle (grains [(3, 2)])) =
     main_loop (λ n, Z.of_nat n) (λ _ _, 0) fuel
       ([([SDL_MOUSEBUTTONDOWN], (75, 27))]
          ++ [([SDL_MOUSEBUTTONUP; SDL_QUIT], (0, 0))])
       (idle (grains [(3, 2)]))) ∧
  (quit (idle (grains [(3, 2)])) = 0 →
   ∃ fuel0, ∀ fuel, (fuel0 ≤ fuel)%nat →
     ∃ st' painted,
       paint (λ n, Z.of_nat n) fuel (0, 0)
             (fold_left handle_event [SDL_MOUSEBUTTONUP; SDL_QUIT]
                        (idle (grains [(3, 2)])))
         = Done (st', painted) ∧
       quit st' = 1 ∧
       main_loop (λ n, Z.of_nat n) (λ _ _, 0) fuel
                 (([SDL_MOUSEBUTTONUP; SDL_QUIT], (0, 0))
                    :: [([SDL_MOUSEBUTTONDOWN], (15, 7))])
                 (idle (grains [(3, 2)])) =
         Done (st',
               (SDL_PollEvent <$> [SDL_MOUSEBUTTONUP; SDL_QUIT]) ++ painted
               ++ [SDL_SetRenderDrawColor 0 0 0 255; SDL_RenderClear]
               ++ (occupied_cells (points st')
                     ≫= draw_cell (λ _ _, 0) (points st'))
               ++ [SDL_RenderPresent; SDL_Delay 16])).
Proof.
  apply (main_loop_stops_at_quit (λ n, Z.of_nat n) (λ _ _, 0)
           [SDL_MOUSEBUTTONUP; SDL_QUIT] (0, 0)
           [([SDL_MOUSEBUTTONDOWN], (75, 27))]
           [([SDL_MOUSEBUTTONDOWN], (15, 7))] (idle (grains [(3, 2)]))).
  - apply well_formed_addNewPoint, well_formed_init_grid.
  - apply list_elem_of_further, list_elem_of_here.
Defined.
